(** * The handshake program: wire codec, framer and handshake engine

    A shallow embedding of the Go packages [common], [message], [peer] and
    [checker] of the handshake repository, followed by the properties of the
    specification that are settled on it.

    Conventions of the embedding.
    - Fixed-width integers are [Z] values; every conversion the Go source
      writes ([uint8(v)], [uint32(lenp)], ...) is written out as a reduction
      modulo the width.
    - A byte is a [Z] in [0, 256); byte sequences are [list Z].
    - A Go slice is a view (offset, length) on a backing array; indexing and
      re-slicing out of range is a run-time panic, modelled by [None].
    - The global scratch pool [binarySerializer] is threaded as state.
    - [io.Writer] and [Message] are interfaces, modelled as type classes. *)

From Stdlib Require Import String Ascii DecimalString ZArith List Lia Bool Arith.
Import ListNotations.
Local Open Scope Z_scope.

(** ** Errors *)

(** Go [error] values.  The two sentinels of the wire package are compared by
    identity in the source; the other constructors carry the text returned by
    their [Error()] method. *)
Inductive error : Type :=
  | ErrUnknownMessage
  | ErrInvalidHandshake
  | errors_New (text : string)
  | OpError (text : string).

Definition Error (e : error) : string :=
  match e with
  | ErrUnknownMessage => "received unknown message"
  | ErrInvalidHandshake => "invalid message during handshake"
  | errors_New t => t
  | OpError t => t
  end.

Definition error_eqb (a b : error) : bool :=
  match a, b with
  | ErrUnknownMessage, ErrUnknownMessage => true
  | ErrInvalidHandshake, ErrInvalidHandshake => true
  | errors_New s, errors_New t => String.eqb s t
  | OpError s, OpError t => String.eqb s t
  | _, _ => false
  end.

(** ** Panics: the option monad *)

Definition obind {A B} (m : option A) (k : A -> option B) : option B :=
  match m with
  | Some a => k a
  | None => None
  end.

Declare Scope go_scope.
Delimit Scope go_scope with go.
Notation "x <- m ;; k" := (obind m (fun x => k))
  (at level 61, m at next level, right associativity) : go_scope.
Notation "' p <- m ;; k" := (obind m (fun p => k))
  (at level 61, p pattern, m at next level, right associativity) : go_scope.
Local Open Scope go_scope.

(** ** Fixed-width conversions *)

Definition uint8 (v : Z) : Z := v mod 2 ^ 8.
Definition uint16 (v : Z) : Z := v mod 2 ^ 16.
Definition uint32 (v : Z) : Z := v mod 2 ^ 32.
Definition uint64 (v : Z) : Z := v mod 2 ^ 64.
Definition int32 (v : Z) : Z := (v + 2 ^ 31) mod 2 ^ 32 - 2 ^ 31.
Definition shr (v : Z) (n : Z) : Z := Z.shiftr v n.

Arguments uint8 : simpl never.
Arguments uint16 : simpl never.
Arguments uint32 : simpl never.
Arguments uint64 : simpl never.
Arguments int32 : simpl never.
Arguments shr : simpl never.

(** ** Slices *)

Module Slice.

Record slice : Type := mk { arr : list Z; off : nat; len : nat }.

Definition cap (s : slice) : nat := (length (arr s) - off s)%nat.

(** [make([]byte, n)] *)
Definition make (n : nat) : slice := mk (repeat 0 n) 0 n.

(** [s[:hi]] *)
Definition to (s : slice) (hi : nat) : option slice :=
  if (hi <=? cap s)%nat then Some (mk (arr s) (off s) hi) else None.

(** [s[lo:hi]] *)
Definition range (s : slice) (lo hi : nat) : option slice :=
  if ((lo <=? hi) && (hi <=? cap s))%nat
  then Some (mk (arr s) (off s + lo) (hi - lo))
  else None.

Fixpoint upd (i : nat) (v : Z) (l : list Z) : list Z :=
  match l, i with
  | [], _ => []
  | _ :: t, O => v :: t
  | h :: t, S j => h :: upd j v t
  end.

(** [s[i]] *)
Definition get (s : slice) (i : nat) : option Z :=
  if (i <? len s)%nat then nth_error (arr s) (off s + i) else None.

(** [s[i] = v] *)
Definition set (s : slice) (i : nat) (v : Z) : option slice :=
  if (i <? len s)%nat
  then Some (mk (upd (off s + i) v (arr s)) (off s) (len s))
  else None.

(** The bytes a slice denotes, as [w.Write(s)] sees them. *)
Definition contents (s : slice) : list Z :=
  firstn (len s) (skipn (off s) (arr s)).

(** After a callee wrote through the view [v] of the backing array of
    [s], the slice [s] sees the written bytes. *)
Definition sync (s v : slice) : slice := mk (arr v) (off s) (len s).

(** [copy(dst, src)] for a whole array destination: the first
    [min (len dst) (len src)] elements are overwritten. *)
Definition copy (dst src : list Z) : list Z :=
  firstn (length dst) src ++ skipn (length src) dst.

(** A slice is well formed when its view lies inside its backing array. *)
Definition wf (s : slice) : Prop := (off s + len s <= length (arr s))%nat.

End Slice.

Import Slice.

(** ** Package encoding/binary: the two byte orders *)

Module binary.

Record ByteOrder : Type := {
  PutUint16 : slice -> Z -> option slice;
  PutUint32 : slice -> Z -> option slice;
  PutUint64 : slice -> Z -> option slice;
  Uint16 : slice -> option Z;
  Uint32 : slice -> option Z;
  Uint64 : slice -> option Z
}.

(** Each function starts with the early bounds check [_ = b[k]] of the Go
    library and then stores or loads byte by byte. *)

Definition le_PutUint16 (b : slice) (v : Z) : option slice :=
  _ <- get b 1 ;;
  b <- set b 0 (uint8 v) ;;
  set b 1 (uint8 (shr v 8)).

Definition le_PutUint32 (b : slice) (v : Z) : option slice :=
  _ <- get b 3 ;;
  b <- set b 0 (uint8 v) ;;
  b <- set b 1 (uint8 (shr v 8)) ;;
  b <- set b 2 (uint8 (shr v 16)) ;;
  set b 3 (uint8 (shr v 24)).

Definition le_PutUint64 (b : slice) (v : Z) : option slice :=
  _ <- get b 7 ;;
  b <- set b 0 (uint8 v) ;;
  b <- set b 1 (uint8 (shr v 8)) ;;
  b <- set b 2 (uint8 (shr v 16)) ;;
  b <- set b 3 (uint8 (shr v 24)) ;;
  b <- set b 4 (uint8 (shr v 32)) ;;
  b <- set b 5 (uint8 (shr v 40)) ;;
  b <- set b 6 (uint8 (shr v 48)) ;;
  set b 7 (uint8 (shr v 56)).

Definition le_Uint16 (b : slice) : option Z :=
  _ <- get b 1 ;;
  b0 <- get b 0 ;; b1 <- get b 1 ;;
  Some (Z.lor b0 (Z.shiftl b1 8)).

Definition le_Uint32 (b : slice) : option Z :=
  _ <- get b 3 ;;
  b0 <- get b 0 ;; b1 <- get b 1 ;; b2 <- get b 2 ;; b3 <- get b 3 ;;
  Some (Z.lor (Z.lor (Z.lor b0 (Z.shiftl b1 8)) (Z.shiftl b2 16))
              (Z.shiftl b3 24)).

Definition le_Uint64 (b : slice) : option Z :=
  _ <- get b 7 ;;
  b0 <- get b 0 ;; b1 <- get b 1 ;; b2 <- get b 2 ;; b3 <- get b 3 ;;
  b4 <- get b 4 ;; b5 <- get b 5 ;; b6 <- get b 6 ;; b7 <- get b 7 ;;
  Some (Z.lor (Z.lor (Z.lor (Z.lor (Z.lor (Z.lor (Z.lor
          b0 (Z.shiftl b1 8)) (Z.shiftl b2 16)) (Z.shiftl b3 24))
          (Z.shiftl b4 32)) (Z.shiftl b5 40)) (Z.shiftl b6 48))
          (Z.shiftl b7 56)).

Definition be_PutUint16 (b : slice) (v : Z) : option slice :=
  _ <- get b 1 ;;
  b <- set b 0 (uint8 (shr v 8)) ;;
  set b 1 (uint8 v).

Definition be_PutUint32 (b : slice) (v : Z) : option slice :=
  _ <- get b 3 ;;
  b <- set b 0 (uint8 (shr v 24)) ;;
  b <- set b 1 (uint8 (shr v 16)) ;;
  b <- set b 2 (uint8 (shr v 8)) ;;
  set b 3 (uint8 v).

Definition be_PutUint64 (b : slice) (v : Z) : option slice :=
  _ <- get b 7 ;;
  b <- set b 0 (uint8 (shr v 56)) ;;
  b <- set b 1 (uint8 (shr v 48)) ;;
  b <- set b 2 (uint8 (shr v 40)) ;;
  b <- set b 3 (uint8 (shr v 32)) ;;
  b <- set b 4 (uint8 (shr v 24)) ;;
  b <- set b 5 (uint8 (shr v 16)) ;;
  b <- set b 6 (uint8 (shr v 8)) ;;
  set b 7 (uint8 v).

Definition be_Uint16 (b : slice) : option Z :=
  _ <- get b 1 ;;
  b0 <- get b 0 ;; b1 <- get b 1 ;;
  Some (Z.lor b1 (Z.shiftl b0 8)).

Definition be_Uint32 (b : slice) : option Z :=
  _ <- get b 3 ;;
  b0 <- get b 0 ;; b1 <- get b 1 ;; b2 <- get b 2 ;; b3 <- get b 3 ;;
  Some (Z.lor (Z.lor (Z.lor b3 (Z.shiftl b2 8)) (Z.shiftl b1 16))
              (Z.shiftl b0 24)).

Definition be_Uint64 (b : slice) : option Z :=
  _ <- get b 7 ;;
  b0 <- get b 0 ;; b1 <- get b 1 ;; b2 <- get b 2 ;; b3 <- get b 3 ;;
  b4 <- get b 4 ;; b5 <- get b 5 ;; b6 <- get b 6 ;; b7 <- get b 7 ;;
  Some (Z.lor (Z.lor (Z.lor (Z.lor (Z.lor (Z.lor (Z.lor
          b7 (Z.shiftl b6 8)) (Z.shiftl b5 16)) (Z.shiftl b4 24))
          (Z.shiftl b3 32)) (Z.shiftl b2 40)) (Z.shiftl b1 48))
          (Z.shiftl b0 56)).

Definition LittleEndian : ByteOrder :=
  {| PutUint16 := le_PutUint16; PutUint32 := le_PutUint32;
     PutUint64 := le_PutUint64; Uint16 := le_Uint16;
     Uint32 := le_Uint32; Uint64 := le_Uint64 |}.

Definition BigEndian : ByteOrder :=
  {| PutUint16 := be_PutUint16; PutUint32 := be_PutUint32;
     PutUint64 := be_PutUint64; Uint16 := be_Uint16;
     Uint32 := be_Uint32; Uint64 := be_Uint64 |}.

End binary.

(** ** Package io: writers and readers *)

(** [io.Writer]: one call of [Write] on the writer state [w] yields the new
    state and the returned error. *)
Class Writer (W : Type) : Type :=
  Write : W -> list Z -> W * option error.

(** [bytes.Buffer]: an in-memory writer that never fails. *)
Definition Buffer : Type := list Z.

#[export] Instance Buffer_Writer : Writer Buffer :=
  fun b p => (b ++ p, None).

(** [io.Reader] under [io.ReadFull]: the reader holds the bytes still to
    come; asking for more than it holds is [io.EOF] on an empty reader and
    [io.ErrUnexpectedEOF] otherwise. *)
Definition Reader : Type := list Z.

Definition io_EOF : error := errors_New "EOF".
Definition io_ErrUnexpectedEOF : error := errors_New "unexpected EOF".

(** [n, err := io.ReadFull(r, buf)]: fills [buf] from the reader. *)
Fixpoint fill (b : slice) (i : nat) (data : list Z) : option slice :=
  match data with
  | [] => Some b
  | x :: rest => b' <- set b i x ;; fill b' (S i) rest
  end.

Definition ReadFull (r : Reader) (buf : slice)
  : option (Reader * slice * option error) :=
  if (len buf <=? length r)%nat
  then b <- fill buf 0 (firstn (len buf) r) ;;
       Some (skipn (len buf) r, b, None)
  else b <- fill buf 0 r ;;
       Some ([], b, Some (match r with
                          | [] => io_EOF
                          | _ => io_ErrUnexpectedEOF
                          end)).

(** [[]byte(s)] and [len(s)] for a Go string: its bytes. *)
Definition bytes_of_string (s : string) : list Z :=
  map (fun c => Z.of_nat (nat_of_ascii c)) (list_ascii_of_string s).

(** ** Package chainhash *)

(** [chainhash.DoubleHashB] is the double application of a 256-bit hash; it
    belongs to an imported library and is taken as a parameter, together
    with the one fact the framer relies on: the digest has 32 bytes. *)
Class Hasher : Type := {
  HashB : list Z -> list Z;
  HashB_length : forall p, length (HashB p) = 32%nat
}.

Definition DoubleHashB `{Hasher} (p : list Z) : list Z := HashB (HashB p).

(** ** Package common *)

Module common.

(** [type BinaryFreeList chan []byte]: a buffered channel, that is a FIFO
    queue of slices with a fixed capacity. *)
Record BinaryFreeList : Type := {
  chan_cap : nat;
  queue : list slice
}.

Record NetAddress : Type := {
  Timestamp : Z;            (* time.Time, as Unix seconds *)
  Services : Z;             (* ServiceFlag, uint64 *)
  IP : option (list Z);     (* net.IP; [None] is the nil slice *)
  Port : Z                  (* uint16 *)
}.

(** The zero value [common.NetAddress{}]. *)
Definition NetAddress_zero : NetAddress :=
  {| Timestamp := 0; Services := 0; IP := None; Port := 0 |}.

Definition MainNet : Z := 0xd9b4bef9.
Definition TestNet : Z := 0xdab5bffa.
Definition TestNet3 : Z := 0x0709110b.
Definition SimNet : Z := 0x12141c16.

(** [Borrow]: receive from the channel if a buffer is ready, allocate
    otherwise; the result is re-sliced to [[:8]]. *)
Definition Borrow (l : BinaryFreeList) : option (slice * BinaryFreeList) :=
  match queue l with
  | buf :: rest =>
      b <- to buf 8 ;;
      Some (b, {| chan_cap := chan_cap l; queue := rest |})
  | [] =>
      b <- to (make 8) 8 ;;
      Some (b, l)
  end.

(** [Return]: send on the channel unless it is full. *)
Definition Return (l : BinaryFreeList) (buf : slice) : BinaryFreeList :=
  if (length (queue l) <? chan_cap l)%nat
  then {| chan_cap := chan_cap l; queue := queue l ++ [buf] |}
  else l.

(** The readers.  The deferred [l.Return(buf)] runs on every return. *)

Definition Uint8 (l : BinaryFreeList) (r : Reader)
  : option (BinaryFreeList * Reader * (Z * option error)) :=
  '(b, l) <- Borrow l ;;
  buf <- to b 1 ;;
  '(r, buf, err) <- ReadFull r buf ;;
  match err with
  | Some e => Some (Return l buf, r, (0, Some e))
  | None => rv <- get buf 0 ;; Some (Return l buf, r, (rv, None))
  end.

Definition Uint16 (l : BinaryFreeList) (r : Reader)
  (byteOrder : binary.ByteOrder)
  : option (BinaryFreeList * Reader * (Z * option error)) :=
  '(b, l) <- Borrow l ;;
  buf <- to b 2 ;;
  '(r, buf, err) <- ReadFull r buf ;;
  match err with
  | Some e => Some (Return l buf, r, (0, Some e))
  | None =>
      rv <- binary.Uint16 byteOrder buf ;;
      Some (Return l buf, r, (rv, None))
  end.

Definition Uint32 (l : BinaryFreeList) (r : Reader)
  (byteOrder : binary.ByteOrder)
  : option (BinaryFreeList * Reader * (Z * option error)) :=
  '(b, l) <- Borrow l ;;
  buf <- to b 4 ;;
  '(r, buf, err) <- ReadFull r buf ;;
  match err with
  | Some e => Some (Return l buf, r, (0, Some e))
  | None =>
      rv <- binary.Uint32 byteOrder buf ;;
      Some (Return l buf, r, (rv, None))
  end.

Definition Uint64 (l : BinaryFreeList) (r : Reader)
  (byteOrder : binary.ByteOrder)
  : option (BinaryFreeList * Reader * (Z * option error)) :=
  '(b, l) <- Borrow l ;;
  buf <- to b 8 ;;
  '(r, buf, err) <- ReadFull r buf ;;
  match err with
  | Some e => Some (Return l buf, r, (0, Some e))
  | None =>
      rv <- binary.Uint64 byteOrder buf ;;
      Some (Return l buf, r, (rv, None))
  end.

(** The writers. *)

Definition PutUint8 {W} `{Writer W} (l : BinaryFreeList) (w : W) (val : Z)
  : option (BinaryFreeList * W * option error) :=
  '(b, l) <- Borrow l ;;
  buf <- to b 1 ;;
  buf <- set buf 0 val ;;
  let (w, err) := Write w (contents buf) in
  Some (Return l buf, w, err).

Definition PutUint16 {W} `{Writer W} (l : BinaryFreeList) (w : W)
  (byteOrder : binary.ByteOrder) (val : Z)
  : option (BinaryFreeList * W * option error) :=
  '(b, l) <- Borrow l ;;
  buf <- to b 2 ;;
  buf <- binary.PutUint16 byteOrder buf val ;;
  let (w, err) := Write w (contents buf) in
  Some (Return l buf, w, err).

Definition PutUint32 {W} `{Writer W} (l : BinaryFreeList) (w : W)
  (byteOrder : binary.ByteOrder) (val : Z)
  : option (BinaryFreeList * W * option error) :=
  '(b, l) <- Borrow l ;;
  buf <- to b 4 ;;
  buf <- binary.PutUint32 byteOrder buf val ;;
  let (w, err) := Write w (contents buf) in
  Some (Return l buf, w, err).

Definition PutUint64 {W} `{Writer W} (l : BinaryFreeList) (w : W)
  (byteOrder : binary.ByteOrder) (val : Z)
  : option (BinaryFreeList * W * option error) :=
  '(b, l) <- Borrow l ;;
  buf <- to b 8 ;;
  buf <- binary.PutUint64 byteOrder buf val ;;
  let (w, err) := Write w (contents buf) in
  Some (Return l buf, w, err).

End common.

Import common.

(** ** Package net: [IP.To16] *)

Definition v4InV6Prefix : list Z := [0; 0; 0; 0; 0; 0; 0; 0; 0; 0; 0xff; 0xff].

(** [ip.To16()]: a 4-byte address becomes its IPv4-mapped form, a 16-byte
    address is returned as it is, any other length gives nil. *)
Definition To16 (ip : list Z) : option (list Z) :=
  match ip with
  | [a; b; c; d] => Some (v4InV6Prefix ++ [a; b; c; d])
  | _ => if (length ip =? 16)%nat then Some ip else None
  end.

(** ** Package message *)

Module message.

Definition MessageEncoding : Type := Z.

(** [type Message interface { BtcEncode(...) error; Command() string }].
    The encoder writes to any writer and uses the global scratch pool. *)
Class Message (M : Type) : Type := {
  BtcEncode : forall {W} `{Writer W},
    M -> BinaryFreeList -> W -> Z -> MessageEncoding ->
    option (BinaryFreeList * W * option error);
  Command : M -> string
}.

Record messageHeader : Type := {
  magic : Z;
  command : string;
  length : Z;
  checksum : list Z
}.

Definition WitnessEncoding : MessageEncoding := 2.
Definition CommandSize : nat := 12.
Definition MessageHeaderSize : nat := 24.
Definition binaryFreeListMaxItems : nat := 1024.

(** [var binarySerializer common.BinaryFreeList =
      make(chan []byte, binaryFreeListMaxItems)] *)
Definition binarySerializer : BinaryFreeList :=
  {| chan_cap := binaryFreeListMaxItems; queue := [] |}.

(** The dynamic types [writeElement] switches on. *)
Inductive element : Type :=
  | e_int32 (e : Z)
  | e_uint32 (e : Z)
  | e_int64 (e : Z)
  | e_uint64 (e : Z)
  | e_bool (e : bool)
  | e_checksum (e : list Z)          (* [4]byte *)
  | e_command (e : list Z)           (* [CommandSize]uint8 *)
  | e_ip (e : list Z)                (* [16]byte *)
  | e_hash (e : list Z)              (* *chainhash.Hash *)
  | e_ServiceFlag (e : Z)
  | e_InvType (e : Z)
  | e_BitcoinNet (e : Z)
  | e_BloomUpdateType (e : Z)
  | e_RejectCode (e : Z).

Definition write_array {W} `{Writer W} (l : BinaryFreeList) (w : W)
  (e : list Z) : option (BinaryFreeList * W * option error) :=
  let (w, err) := Write w e in Some (l, w, err).

Definition writeElement {W} `{Writer W} (l : BinaryFreeList) (w : W)
  (el : element) : option (BinaryFreeList * W * option error) :=
  match el with
  | e_int32 e => PutUint32 l w binary.LittleEndian (uint32 e)
  | e_uint32 e => PutUint32 l w binary.LittleEndian e
  | e_int64 e => PutUint64 l w binary.LittleEndian (uint64 e)
  | e_uint64 e => PutUint64 l w binary.LittleEndian e
  | e_bool e => if e then PutUint8 l w 0x01 else PutUint8 l w 0x00
  | e_checksum e => write_array l w e
  | e_command e => write_array l w e
  | e_ip e => write_array l w e
  | e_hash e => write_array l w e
  | e_ServiceFlag e => PutUint64 l w binary.LittleEndian (uint64 e)
  | e_InvType e => PutUint32 l w binary.LittleEndian (uint32 e)
  | e_BitcoinNet e => PutUint32 l w binary.LittleEndian (uint32 e)
  | e_BloomUpdateType e => PutUint8 l w (uint8 e)
  | e_RejectCode e => PutUint8 l w (uint8 e)
  end.

Fixpoint writeElements {W} `{Writer W} (l : BinaryFreeList) (w : W)
  (elements : list element) : option (BinaryFreeList * W * option error) :=
  match elements with
  | [] => Some (l, w, None)
  | el :: rest =>
      '(l, w, err) <- writeElement l w el ;;
      match err with
      | Some e => Some (l, w, Some e)
      | None => writeElements l w rest
      end
  end.

(** The parameter [ts] is received and never read. *)
Definition writeNetAddressBuf {W} `{Writer W} (w : W) (pver : Z)
  (na : NetAddress) (ts : bool) (buf : slice)
  : option (W * slice * option error) :=
  buf <- binary.PutUint64 binary.LittleEndian buf (uint64 (Services na)) ;;
  let (w, err) := Write w (contents buf) in
  match err with
  | Some e => Some (w, buf, Some e)
  | None =>
      let ip := repeat 0 16 in
      let ip := match IP na with
                | Some a => match To16 a with
                            | Some a16 => copy ip a16
                            | None => ip
                            end
                | None => ip
                end in
      let (w, err) := Write w ip in
      match err with
      | Some e => Some (w, buf, Some e)
      | None =>
          b2 <- to buf 2 ;;
          b2 <- binary.PutUint16 binary.BigEndian b2 (Port na) ;;
          let (w, err) := Write w (contents b2) in
          Some (w, sync buf b2, err)
      end
  end.

Definition MaxUint16 : Z := 0xffff.
Definition MaxUint32 : Z := 0xffffffff.

Definition WriteVarIntBuf {W} `{Writer W} (w : W) (pver : Z) (val : Z)
  (buf : slice) : option (W * slice * option error) :=
  if val <? 0xfd then
    buf <- set buf 0 (uint8 val) ;;
    b1 <- to buf 1 ;;
    let (w, err) := Write w (contents b1) in
    Some (w, buf, err)
  else if val <=? MaxUint16 then
    buf <- set buf 0 0xfd ;;
    v <- range buf 1 3 ;;
    v <- binary.PutUint16 binary.LittleEndian v (uint16 val) ;;
    let buf := sync buf v in
    b3 <- to buf 3 ;;
    let (w, err) := Write w (contents b3) in
    Some (w, buf, err)
  else if val <=? MaxUint32 then
    buf <- set buf 0 0xfe ;;
    v <- range buf 1 5 ;;
    v <- binary.PutUint32 binary.LittleEndian v (uint32 val) ;;
    let buf := sync buf v in
    b5 <- to buf 5 ;;
    let (w, err) := Write w (contents b5) in
    Some (w, buf, err)
  else
    buf <- set buf 0 0xff ;;
    b1 <- to buf 1 ;;
    let (w, err) := Write w (contents b1) in
    match err with
    | Some e => Some (w, buf, Some e)
    | None =>
        buf <- binary.PutUint64 binary.LittleEndian buf val ;;
        let (w, err) := Write w (contents buf) in
        Some (w, buf, err)
    end.

Definition writeVarStringBuf {W} `{Writer W} (w : W) (pver : Z)
  (str : string) (buf : slice) : option (W * slice * option error) :=
  '(w, buf, err) <-
    WriteVarIntBuf w pver (uint64 (Z.of_nat (String.length str))) buf ;;
  match err with
  | Some e => Some (w, buf, Some e)
  | None =>
      let (w, err) := Write w (bytes_of_string str) in
      Some (w, buf, err)
  end.

Definition writeNetAddress {W} `{Writer W} (l : BinaryFreeList) (w : W)
  (pver : Z) (na : NetAddress) (ts : bool)
  : option (BinaryFreeList * W * option error) :=
  '(buf, l) <- Borrow l ;;
  '(w, buf', err) <- writeNetAddressBuf w pver na ts buf ;;
  Some (Return l (sync buf buf'), w, err).

Definition WriteVarString {W} `{Writer W} (l : BinaryFreeList) (w : W)
  (pver : Z) (str : string)
  : option (BinaryFreeList * W * option error) :=
  '(buf, l) <- Borrow l ;;
  '(w, buf', err) <- writeVarStringBuf w pver str buf ;;
  Some (Return l (sync buf buf'), w, err).

Definition CmdVerAck : string := "verack".
Definition CmdVersion : string := "version".

Record MsgVersion : Type := {
  ProtocolVersion : Z;          (* int32 *)
  mvServices : Z;               (* common.ServiceFlag *)
  mvTimestamp : Z;              (* time.Time; the value of [Unix()] *)
  AddrYou : NetAddress;
  AddrMe : NetAddress;
  Nonce : Z;                    (* uint64 *)
  UserAgent : string;
  LastBlock : Z;                (* int32 *)
  DisableRelayTx : bool
}.

Definition MsgVersion_BtcEncode {W} `{Writer W} (msg : MsgVersion)
  (l : BinaryFreeList) (w : W) (pver : Z) (enc : MessageEncoding)
  : option (BinaryFreeList * W * option error) :=
  '(l, w, err) <- writeElements l w
      [e_int32 (ProtocolVersion msg); e_ServiceFlag (mvServices msg);
       e_int64 (mvTimestamp msg)] ;;
  match err with
  | Some e => Some (l, w, Some e)
  | None =>
  '(l, w, err) <- writeNetAddress l w pver (AddrYou msg) false ;;
  match err with
  | Some e => Some (l, w, Some e)
  | None =>
  '(l, w, err) <- writeNetAddress l w pver (AddrMe msg) false ;;
  match err with
  | Some e => Some (l, w, Some e)
  | None =>
  '(l, w, err) <- writeElement l w (e_uint64 (Nonce msg)) ;;
  match err with
  | Some e => Some (l, w, Some e)
  | None =>
  '(l, w, err) <- WriteVarString l w pver (UserAgent msg) ;;
  match err with
  | Some e => Some (l, w, Some e)
  | None =>
  '(l, w, err) <- writeElement l w (e_int32 (LastBlock msg)) ;;
  match err with
  | Some e => Some (l, w, Some e)
  | None => Some (l, w, None)
  end end end end end end.

#[global] Instance MsgVersion_Message : Message MsgVersion := {
  BtcEncode := @MsgVersion_BtcEncode;
  Command := fun _ => CmdVersion
}.

(** [type MsgVerAck struct{}] *)
Inductive MsgVerAck : Type := mkMsgVerAck.

Definition MsgVerAck_BtcEncode {W} `{Writer W} (msg : MsgVerAck)
  (l : BinaryFreeList) (w : W) (pver : Z) (enc : MessageEncoding)
  : option (BinaryFreeList * W * option error) :=
  Some (l, w, None).

#[global] Instance MsgVerAck_Message : Message MsgVerAck := {
  BtcEncode := @MsgVerAck_BtcEncode;
  Command := fun _ => CmdVerAck
}.

(** [h[0:4]] on the digest. *)
Definition first4 (h : list Z) : option (list Z) :=
  if (4 <=? List.length h)%nat then Some (firstn 4 h) else None.

Definition WriteMessageWithEncodingN {W M} `{Writer W} `{Message M}
  `{Hasher} (l : BinaryFreeList) (w : W) (msg : M) (pver : Z) (btcnet : Z)
  (encoding : MessageEncoding)
  : option (BinaryFreeList * W * option error) :=
  (* Enforce max command size. *)
  let command0 := repeat 0 CommandSize in
  let cmd := Command msg in
  if (CommandSize <? String.length cmd)%nat then
    Some (l, w, Some (errors_New
      ("command [" ++ cmd ++ "] is too long [max 12]")))
  else
  let command := copy command0 (bytes_of_string cmd) in
  (* Encode the message payload. *)
  '(l, bw, err) <- BtcEncode msg l ([] : Buffer) pver encoding ;;
  match err with
  | Some e => Some (l, w, Some e)
  | None =>
  let payload : list Z := bw in
  let lenp := List.length payload in
  (* Create header for the message. *)
  digest <- first4 (DoubleHashB payload) ;;
  let hdr := {| magic := btcnet; command := cmd;
                length := uint32 (Z.of_nat lenp);
                checksum := copy (repeat 0 4) digest |} in
  (* Encode the header; the error of writeElements is dropped. *)
  '(l, hw, _) <- writeElements l ([] : Buffer)
      [e_BitcoinNet (magic hdr); e_command command;
       e_uint32 (length hdr); e_checksum (checksum hdr)] ;;
  (* Write header. *)
  let (w, err) := Write w hw in
  match err with
  | Some e => Some (l, w, Some e)
  | None =>
  (* Only write the payload if there is one. *)
  if (0 <? List.length payload)%nat then
    let (w, err) := Write w payload in Some (l, w, err)
  else Some (l, w, None)
  end end.

End message.

(** ** Package regexp *)

Module regexp.

(** Regular expressions over bytes, matched by derivatives.  The anchors
    [^] and [$] of a pattern without flags tie a match to the whole text,
    which is what [MatchString] below decides. *)
Inductive re : Type :=
  | Void
  | Eps
  | Class (p : ascii -> bool)
  | Cat (r1 r2 : re)
  | Alt (r1 r2 : re)
  | Star (r : re).

Fixpoint nullable (r : re) : bool :=
  match r with
  | Void => false
  | Eps => true
  | Class _ => false
  | Cat r1 r2 => nullable r1 && nullable r2
  | Alt r1 r2 => nullable r1 || nullable r2
  | Star _ => true
  end.

Fixpoint deriv (c : ascii) (r : re) : re :=
  match r with
  | Void => Void
  | Eps => Void
  | Class p => if p c then Eps else Void
  | Cat r1 r2 =>
      if nullable r1
      then Alt (Cat (deriv c r1) r2) (deriv c r2)
      else Cat (deriv c r1) r2
  | Alt r1 r2 => Alt (deriv c r1) (deriv c r2)
  | Star r1 => Cat (deriv c r1) (Star r1)
  end.

Fixpoint run (r : re) (s : list ascii) : bool :=
  match s with
  | [] => nullable r
  | c :: t => run (deriv c r) t
  end.

Definition MatchString (r : re) (s : string) : bool :=
  run r (list_ascii_of_string s).

(** [\d]: an ASCII decimal digit. *)
Definition is_digit (c : ascii) : bool :=
  let n := nat_of_ascii c in ((48 <=? n) && (n <=? 57))%nat.

Definition is_char (a c : ascii) : bool := Ascii.eqb a c.

Definition digit : re := Class is_digit.
Definition lit (a : ascii) : re := Class (is_char a).
Definition opt (r : re) : re := Alt Eps r.
(** [r{1,3}] *)
Definition rep_1_3 (r : re) : re := Cat r (opt (Cat r (opt r))).
(** [r+] *)
Definition plus (r : re) : re := Cat r (Star r).

(** The language of an expression. *)
Inductive matches : re -> list ascii -> Prop :=
  | m_eps : matches Eps []
  | m_class p c : p c = true -> matches (Class p) [c]
  | m_cat r1 r2 s1 s2 :
      matches r1 s1 -> matches r2 s2 -> matches (Cat r1 r2) (s1 ++ s2)
  | m_alt_l r1 r2 s : matches r1 s -> matches (Alt r1 r2) s
  | m_alt_r r1 r2 s : matches r2 s -> matches (Alt r1 r2) s
  | m_star_nil r : matches (Star r) []
  | m_star_app r s1 s2 :
      matches r s1 -> matches (Star r) s2 -> matches (Star r) (s1 ++ s2).

End regexp.

(** ** Package strconv and package net: the parsers the engine calls *)

Definition quote (s : string) : string :=
  String (ascii_of_nat 34) (s ++ String (ascii_of_nat 34) EmptyString).

(** [fmt.Sprintf("%d", n)] *)
Definition fmt_d (n : nat) : string :=
  NilEmpty.string_of_uint (Nat.to_uint n).

Module strconv.

Definition syntaxError (fn s : string) : error :=
  errors_New ("strconv." ++ fn ++ ": parsing " ++ quote s
              ++ ": invalid syntax").
Definition rangeError (fn s : string) : error :=
  errors_New ("strconv." ++ fn ++ ": parsing " ++ quote s
              ++ ": value out of range").

(** The value of a digit character in bases up to 36. *)
Definition digit_val (c : ascii) : option Z :=
  let n := Z.of_nat (nat_of_ascii c) in
  if (48 <=? n) && (n <=? 57) then Some (n - 48)
  else if (97 <=? n) && (n <=? 122) then Some (n - 97 + 10)
  else if (65 <=? n) && (n <=? 90) then Some (n - 65 + 10)
  else None.

(** The digit loop of [ParseUint]: [inl n] is the value so far, [inr]
    the (value, error) pair returned from inside the loop. *)
Fixpoint parse_loop (s0 : string) (base maxVal : Z) (cs : list ascii)
  (n : Z) : Z * option error :=
  match cs with
  | [] => (n, None)
  | c :: rest =>
      match digit_val c with
      | None => (0, Some (syntaxError "ParseUint" s0))
      | Some d =>
          if base <=? d then (0, Some (syntaxError "ParseUint" s0))
          else if (2 ^ 64 - 1) / base + 1 <=? n
          then (maxVal, Some (rangeError "ParseUint" s0))
          else
            let n1 := n * base + d in
            if (2 ^ 64 <=? n1) || (maxVal <? n1)
            then (maxVal, Some (rangeError "ParseUint" s0))
            else parse_loop s0 base maxVal rest n1
      end
  end.

(** [strconv.ParseUint(s, base, bitSize)] for an explicit base in
    [2, 36] and a bit size in [1, 64]; the engine calls it with base 10
    and bit size 16. *)
Definition ParseUint (s : string) (base : Z) (bitSize : Z)
  : Z * option error :=
  match s with
  | EmptyString => (0, Some (syntaxError "ParseUint" s))
  | _ => parse_loop s base (2 ^ bitSize - 1) (list_ascii_of_string s) 0
  end.

End strconv.

Module net.

Fixpoint IndexByte (s : list ascii) (c : ascii) : option nat :=
  match s with
  | [] => None
  | x :: t =>
      if Ascii.eqb x c then Some O
      else match IndexByte t c with
           | Some i => Some (S i)
           | None => None
           end
  end.

Fixpoint LastIndexByte (s : list ascii) (c : ascii) : option nat :=
  match s with
  | [] => None
  | x :: t =>
      match LastIndexByte t c with
      | Some i => Some (S i)
      | None => if Ascii.eqb x c then Some O else None
      end
  end.

Definition AddrError (why addr : string) : error :=
  errors_New ("address " ++ addr ++ ": " ++ why).

Definition str (s : list ascii) : string := string_of_list_ascii s.

(** [net.SplitHostPort]: the port starts after the last colon; a host in
    brackets may itself hold colons. *)
Definition SplitHostPort (hostport : string)
  : (string * string) + error :=
  let hp := list_ascii_of_string hostport in
  let missingPort := "missing port in address"%string in
  let tooManyColons := "too many colons in address"%string in
  match LastIndexByte hp ":" with
  | None => inr (AddrError missingPort hostport)
  | Some i =>
      let bracketed := match hp with
                       | c :: _ => Ascii.eqb c "["
                       | [] => false
                       end in
      let parsed : (list ascii * nat * nat) + error :=
        if bracketed then
          match IndexByte hp "]" with
          | None => inr (AddrError "missing ']' in address" hostport)
          | Some e =>
              if (S e =? List.length hp)%nat
              then inr (AddrError missingPort hostport)
              else if (S e =? i)%nat
              then inl (firstn (e - 1) (skipn 1 hp), 1%nat, S e)
              else match nth_error hp (S e) with
                   | Some c =>
                       if Ascii.eqb c ":"
                       then inr (AddrError tooManyColons hostport)
                       else inr (AddrError missingPort hostport)
                   | None => inr (AddrError missingPort hostport)
                   end
          end
        else
          let host := firstn i hp in
          match IndexByte host ":" with
          | Some _ => inr (AddrError tooManyColons hostport)
          | None => inl (host, O, O)
          end in
      match parsed with
      | inr e => inr e
      | inl (host, j, k) =>
          match IndexByte (skipn j hp) "[" with
          | Some _ => inr (AddrError "unexpected '[' in address" hostport)
          | None =>
              match IndexByte (skipn k hp) "]" with
              | Some _ =>
                  inr (AddrError "unexpected ']' in address" hostport)
              | None => inl (str host, str (skipn (S i) hp))
              end
          end
      end
  end.

(** One decimal field of a dotted IPv4 literal: one to three digits, no
    leading zero on a longer field, value at most 255. *)
Definition octet (f : list ascii) : option Z :=
  match f with
  | [] => None
  | c :: rest =>
      if (3 <? List.length f)%nat then None
      else if forallb regexp.is_digit f then
        if Ascii.eqb c "0" && negb (List.length rest =? 0)%nat then None
        else
          let v := fold_left
                     (fun a d => a * 10 + (Z.of_nat (nat_of_ascii d) - 48))
                     f 0 in
          if v <=? 255 then Some v else None
      else None
  end.

Fixpoint split_dots (s : list ascii) (cur : list ascii)
  : list (list ascii) :=
  match s with
  | [] => [rev cur]
  | c :: t =>
      if Ascii.eqb c "." then rev cur :: split_dots t []
      else split_dots t (c :: cur)
  end.

(** [net.ParseIP] on a dotted-decimal IPv4 literal: the 16-byte
    IPv4-mapped address, or nil when the text is not a valid literal.
    The engine only passes it the host part of an address that matched
    its digit pattern, so the IPv6 branch of the library function is not
    embedded. *)
Definition ParseIP (s : string) : option (list Z) :=
  match map octet (split_dots (list_ascii_of_string s) []) with
  | [Some a; Some b; Some c; Some d] => Some (v4InV6Prefix ++ [a; b; c; d])
  | _ => None
  end.

End net.

(** ** The transport *)

(** What the engine does to the outside world, in program order. *)
Inductive event : Type :=
  | ev_Dial (network address : string) (res : option error)
  | ev_SetWriteDeadline (res : option error)
  | ev_Write (p : list Z) (res : option error)
  | ev_Close
  | ev_Println (line : string).

(** The behaviour of the network during one attempt: the result of the
    dial, of setting the deadline, and of the successive writes (a write
    beyond the listed ones succeeds), and the clock. *)
Record Net : Type := {
  dial_result : option error;
  deadline_result : option error;
  write_results : list (option error);
  now : Z
}.

(** An open [net.Conn]: the writes still to be answered by the network and
    everything done on the connection so far. *)
Record Conn : Type := {
  pending : list (option error);
  log : list event
}.

#[export] Instance Conn_Writer : Writer Conn :=
  fun c p =>
    match pending c with
    | res :: rest =>
        ({| pending := rest; log := log c ++ [ev_Write p res] |}, res)
    | [] =>
        ({| pending := []; log := log c ++ [ev_Write p None] |}, None)
    end.

(** [dialer.Dial("tcp", address)] *)
Definition Dial (n : Net) (network address : string) : Conn + list event * error :=
  match dial_result n with
  | Some e => inr ([ev_Dial network address (Some e)], e)
  | None => inl {| pending := write_results n;
                   log := [ev_Dial network address None] |}
  end.

Definition SetWriteDeadline (n : Net) (c : Conn) : Conn * option error :=
  ({| pending := pending c;
      log := log c ++ [ev_SetWriteDeadline (deadline_result n)] |},
   deadline_result n).

Definition Close (c : Conn) : Conn :=
  {| pending := pending c; log := log c ++ [ev_Close] |}.

(** ** Package peer *)

Module peer.

Import regexp.

Definition HandshakeRetries : nat := 3.
Definition DefaultUserAgent : string := "/btcwire:0.5.0/".
Definition LatestEncoding : message.MessageEncoding :=
  message.WitnessEncoding.

(** [^\d{1,3}\.\d{1,3}\.\d{1,3}\.\d{1,3}:\d+$] *)
Definition pattern : re :=
  Cat (rep_1_3 digit) (Cat (lit ".")
 (Cat (rep_1_3 digit) (Cat (lit ".")
 (Cat (rep_1_3 digit) (Cat (lit ".")
 (Cat (rep_1_3 digit) (Cat (lit ":")
 (plus digit)))))))).

(** The two results of an attempt, a connection pointer and an error: exactly one of
    them is non-nil.  A failed attempt keeps the trace of what it did. *)
Inductive attempt : Type :=
  | Established (conn : Conn)
  | Failed (err : error) (trace : list event).

Definition trace_of (a : attempt) : list event :=
  match a with
  | Established c => log c
  | Failed _ t => t
  end.

Definition handshake `{Hasher} (l : BinaryFreeList) (n : Net)
  (peerAddress : string) (network : Z) (protocolVersion : Z)
  : option (BinaryFreeList * attempt) :=
  (* validate address *)
  if negb (MatchString pattern peerAddress) then
    Some (l, Failed (errors_New "incorrect peer address format") [])
  else
  (* Dial with the Dialer *)
  match Dial n "tcp" peerAddress with
  | inr (t, err) => Some (l, Failed err t)
  | inl conn =>
  (* Set a deadline for writes *)
  let (conn, err) := SetWriteDeadline n conn in
  match err with
  | Some e => Some (l, Failed e (log conn))
  | None =>
  match net.SplitHostPort peerAddress with
  | inr e => let conn := Close conn in Some (l, Failed e (log conn))
  | inl (ip, port) =>
  (* Convert port string to uint16 *)
  let (portUint64, err) := strconv.ParseUint port 10 16 in
  match err with
  | Some e => let conn := Close conn in Some (l, Failed e (log conn))
  | None =>
  (* construct version message to initiate handshake *)
  let localVerMsg := {|
    message.ProtocolVersion := int32 protocolVersion;
    message.mvServices := 0;
    message.mvTimestamp := now n;
    message.AddrYou := {| Timestamp := now n; Services := 0;
                          IP := net.ParseIP ip;
                          Port := uint16 portUint64 |};
    message.AddrMe := NetAddress_zero;
    message.Nonce := 1;
    message.UserAgent := DefaultUserAgent;
    message.LastBlock := 0;
    message.DisableRelayTx := false |} in
  (* 1. We send our version *)
  '(l, conn, err) <- message.WriteMessageWithEncodingN l conn localVerMsg
                       protocolVersion network LatestEncoding ;;
  match err with
  | Some e => let conn := Close conn in Some (l, Failed e (log conn))
  | None =>
  (* 4. We send our verack. *)
  '(l, conn, err) <- message.WriteMessageWithEncodingN l conn
                       message.mkMsgVerAck
                       protocolVersion network LatestEncoding ;;
  match err with
  | Some e => let conn := Close conn in Some (l, Failed e (log conn))
  | None => Some (l, Established conn)
  end end end end end end.

(** The state of the retry loop of [Handshake] before iteration [i]:
    the pool, the last error and the trace of the attempts so far. *)
Fixpoint Handshake_loop `{Hasher} (fuel i : nat) (l : BinaryFreeList)
  (nets : nat -> Net) (err : option error) (t : list event)
  (peerAddress : string) (network protocolVersion : Z)
  : option (BinaryFreeList * (Conn + error) * list event) :=
  match fuel with
  | O =>
      (* [err.Error()] on a nil error is a nil dereference *)
      e <- err ;;
      Some (l, inr (errors_New
              ("handshake failed after " ++ fmt_d HandshakeRetries
               ++ " retries with the error " ++ Error e)), t)
  | S fuel' =>
      '(l, a) <- handshake l (nets i) peerAddress network
                   protocolVersion ;;
      match a with
      | Failed e t' =>
          Handshake_loop fuel' (S i) l nets (Some e)
            (t ++ t' ++ [ev_Println (Error e)])
            peerAddress network protocolVersion
      | Established conn => Some (l, inl conn, t ++ log conn)
      end
  end.

(** [Handshake]: the attempt numbered [i] meets the network [nets i]. *)
Definition Handshake `{Hasher} (l : BinaryFreeList) (nets : nat -> Net)
  (peerAddress : string) (network protocolVersion : Z)
  : option (BinaryFreeList * (Conn + error) * list event) :=
  Handshake_loop HandshakeRetries 0 l nets None []
    peerAddress network protocolVersion.

End peer.

(** ** Package checker *)

Module checker.

(** The messages of the wire package the wait loop tells apart. *)
Inductive wire_Message : Type :=
  | MsgSendAddrV2
  | MsgVerAck
  | MsgOther (command : string).

(** One return of [readMessage]: the message (nil on error) and the
    error. *)
Definition read_result : Type := option wire_Message * option error.

(** The peer's side of the connection: the reads of the reader goroutine
    in order, each with the time in milliseconds, counted from the call,
    at which it returns.  After the last one the read blocks for ever. *)
Definition stream : Type := list (nat * read_result).

(** The reader goroutine up to its first send on the channel [verack]:
    the time of the send and the value sent.  [None]: the goroutine never
    sends.  The channel is unbuffered and the caller receives at most
    once, so a later send blocks for ever and is never observed. *)
Fixpoint first_send (s : stream) : option (nat * option error) :=
  match s with
  | [] => None
  | (t, (remoteMsg, err)) :: rest =>
      match err with
      | Some e =>
          if error_eqb e ErrUnknownMessage then first_send rest
          else Some (t, Some e)
      | None =>
          match remoteMsg with
          | Some MsgSendAddrV2 => first_send rest
          | Some MsgVerAck => Some (t, None)
          | _ => Some (t, Some ErrInvalidHandshake)
          end
      end
  end.

(** [time.After(1 * time.Second)], in milliseconds. *)
Definition window : nat := 1000.

Definition ErrTimeout : error :=
  errors_New "ack message not received in time".

(** The [select]: the value sent on [verack] if the send comes before
    the timer fires, the timeout error otherwise. *)
Definition WaitToFinishNegotiation (s : stream) : option error :=
  match first_send s with
  | Some (t, res) => if (t <? window)%nat then res else Some ErrTimeout
  | None => Some ErrTimeout
  end.

End checker.

(** ** The vocabulary of the wire format *)

(** The [n] low-order bytes of [v], least significant first. *)
Fixpoint le_bytes (n : nat) (v : Z) : list Z :=
  match n with
  | O => []
  | S k => v mod 256 :: le_bytes k (v / 256)
  end.

(** The same bytes, most significant first. *)
Definition be_bytes (n : nat) (v : Z) : list Z := rev (le_bytes n v).

(** The number a little-endian byte sequence denotes. *)
Fixpoint le_value (l : list Z) : Z :=
  match l with
  | [] => 0
  | b :: t => b + 256 * le_value t
  end.

(** A command name in its 12-byte field, padded with zero bytes. *)
Definition padded_command (cmd : string) : list Z :=
  bytes_of_string cmd
    ++ repeat 0 (message.CommandSize - String.length cmd).

(** What [Borrow] hands out: a view of a whole 8-byte array. *)
Definition scratch (b : slice) : Prop :=
  off b = O /\ len b = 8%nat /\ length (arr b) = 8%nat.

(** The pool invariant: every queued buffer is a view, from offset 0, of
    an 8-byte array. *)
Definition pooled (b : slice) : Prop :=
  off b = O /\ length (arr b) = 8%nat.

Definition pool_ok (l : BinaryFreeList) : Prop := Forall pooled (queue l).

(** The two byte orders of the library. *)
Definition library_order (bo : binary.ByteOrder) : Prop :=
  bo = binary.LittleEndian \/ bo = binary.BigEndian.

(** The variable-length integer [val], case by case as the format
    defines it. *)
Definition varint (val : Z) : list Z :=
  if val <? 0xfd then [val]
  else if val <=? 0xffff then 0xfd :: le_bytes 2 val
  else if val <=? 0xffffffff then 0xfe :: le_bytes 4 val
  else 0xff :: le_bytes 8 val.

(** A slice of the same view on an array of the same size. *)
Definition same_shape (s s' : slice) : Prop :=
  off s' = off s /\ len s' = len s /\ length (arr s') = length (arr s).

(** What a writer does on one call, as a result triple. *)
Definition written {W} `{Writer W} (l : BinaryFreeList) (w : W)
  (p : list Z) : option (BinaryFreeList * W * option error) :=
  Some (l, fst (Write w p), snd (Write w p)).

(** The 16-byte address field of a peer address. *)
Definition ip_field (ip : option (list Z)) : list Z :=
  match ip with
  | None => repeat 0 16
  | Some [a; b; c; d] => v4InV6Prefix ++ [a; b; c; d]
  | Some a => if (length a =? 16)%nat then a else repeat 0 16
  end.

(** The address record of the wire format: services, address, port. *)
Definition addr_record (na : NetAddress) : list Z :=
  le_bytes 8 (uint64 (Services na)) ++ ip_field (IP na)
    ++ be_bytes 2 (Port na).

(** A string behind its length. *)
Definition varstring (s : string) : list Z :=
  varint (uint64 (Z.of_nat (String.length s))) ++ bytes_of_string s.

(** The payload the version encoder produces. *)
Definition version_payload (msg : message.MsgVersion) : list Z :=
  le_bytes 4 (uint32 (message.ProtocolVersion msg))
    ++ le_bytes 8 (uint64 (message.mvServices msg))
    ++ le_bytes 8 (uint64 (message.mvTimestamp msg))
    ++ addr_record (message.AddrYou msg)
    ++ addr_record (message.AddrMe msg)
    ++ le_bytes 8 (message.Nonce msg)
    ++ varstring (message.UserAgent msg)
    ++ le_bytes 4 (uint32 (message.LastBlock msg)).

(** The bytes [writeElement] writes for each dynamic type. *)
Definition element_bytes (el : message.element) : list Z :=
  match el with
  | message.e_int32 e => le_bytes 4 (uint32 e)
  | message.e_uint32 e => le_bytes 4 e
  | message.e_int64 e => le_bytes 8 (uint64 e)
  | message.e_uint64 e => le_bytes 8 e
  | message.e_bool e => [if e then 1 else 0]
  | message.e_checksum e => e
  | message.e_command e => e
  | message.e_ip e => e
  | message.e_hash e => e
  | message.e_ServiceFlag e => le_bytes 8 (uint64 e)
  | message.e_InvType e => le_bytes 4 (uint32 e)
  | message.e_BitcoinNet e => le_bytes 4 (uint32 e)
  | message.e_BloomUpdateType e => [uint8 e]
  | message.e_RejectCode e => [uint8 e]
  end.

(** The 24-byte header of a frame: network id, command, payload length,
    checksum. *)
Definition frame_header `{Hasher} (btcnet : Z) (cmd : string)
  (payload : list Z) : list Z :=
  le_bytes 4 (uint32 btcnet) ++ padded_command cmd
    ++ le_bytes 4 (uint32 (Z.of_nat (length payload)))
    ++ firstn 4 (DoubleHashB payload).

(** The two [Write] calls that put a frame on a writer: the header, then
    the payload unless it is empty; the first error ends the sequence. *)
Definition write_frame {W} `{Writer W} (l : BinaryFreeList) (w : W)
  (header payload : list Z) : option (BinaryFreeList * W * option error) :=
  let (w1, e1) := Write w header in
  match e1 with
  | Some e => Some (l, w1, Some e)
  | None =>
      match payload with
      | [] => Some (l, w1, None)
      | _ :: _ => let (w2, e2) := Write w1 payload in Some (l, w2, e2)
      end
  end.

(** The texts the address pattern accepts: four groups of one to three
    decimal digits separated by dots, a colon, and one or more digits. *)
Definition digits (s : list ascii) : Prop :=
  Forall (fun c => regexp.is_digit c = true) s.

Definition octet_text (s : list ascii) : Prop :=
  (1 <= length s <= 3)%nat /\ digits s.

Definition port_text (s : list ascii) : Prop :=
  (1 <= length s)%nat /\ digits s.

Definition well_formed (addr : string) : Prop :=
  exists o1 o2 o3 o4 p : list ascii,
    octet_text o1 /\ octet_text o2 /\ octet_text o3 /\ octet_text o4
    /\ port_text p
    /\ list_ascii_of_string addr
       = o1 ++ "."%char :: o2 ++ "."%char :: o3 ++ "."%char
            :: o4 ++ ":"%char :: p.

(** ** A hash for the framer *)

(** SHA-256, the 256-bit hash the chainhash library applies twice.  It
    supplies the parameter [Hasher] wherever a concrete frame is computed. *)
Module sha256.

Definition w32 (x : Z) : Z := x mod 2 ^ 32.
Definition add (a b : Z) : Z := w32 (a + b).
Definition rotr (n x : Z) : Z :=
  Z.lor (Z.shiftr x n) (w32 (Z.shiftl x (32 - n))).
Definition xor3 (a b c : Z) : Z := Z.lxor (Z.lxor a b) c.

Definition Ch (x y z : Z) : Z :=
  Z.lxor (Z.land x y) (Z.land (Z.lxor x 0xffffffff) z).
Definition Maj (x y z : Z) : Z :=
  xor3 (Z.land x y) (Z.land x z) (Z.land y z).
Definition Sigma0 (x : Z) : Z := xor3 (rotr 2 x) (rotr 13 x) (rotr 22 x).
Definition Sigma1 (x : Z) : Z := xor3 (rotr 6 x) (rotr 11 x) (rotr 25 x).
Definition sigma0 (x : Z) : Z := xor3 (rotr 7 x) (rotr 18 x) (Z.shiftr x 3).
Definition sigma1 (x : Z) : Z :=
  xor3 (rotr 17 x) (rotr 19 x) (Z.shiftr x 10).

(** The first 64 primes: the primes below 312. *)
Definition is_prime (n : nat) : bool :=
  forallb (fun d => negb (n mod d =? 0)%nat) (seq 2 (n - 2)).

Definition primes : list Z := map Z.of_nat (filter is_prime (seq 2 310)).

(** The cube root of [n] rounded down, found bit by bit from [bits]. *)
Fixpoint cube_root (bits : nat) (n r : Z) : Z :=
  match bits with
  | O => r
  | S b =>
      let r' := r + 2 ^ Z.of_nat b in
      cube_root b n (if r' * r' * r' <=? n then r' else r)
  end.

(** The first 32 bits of the fractional part of a cube root and of a
    square root. *)
Definition frac_cbrt (p : Z) : Z := w32 (cube_root 40 (p * 2 ^ 96) 0).
Definition frac_sqrt (p : Z) : Z := w32 (Z.sqrt (p * 2 ^ 64)).

(** The round constants come from the cube roots of the first 64 primes,
    the initial state from the square roots of the first 8. *)
Definition K : list Z := Eval vm_compute in map frac_cbrt primes.

Definition state : Type := (Z * Z * Z * Z * Z * Z * Z * Z)%type.

Definition init : state :=
  Eval vm_compute in
    (frac_sqrt 2, frac_sqrt 3, frac_sqrt 5, frac_sqrt 7,
     frac_sqrt 11, frac_sqrt 13, frac_sqrt 17, frac_sqrt 19).

(** The message, the bit 1, zero bits, and the length in bits on 64
    bits, up to a multiple of 64 bytes. *)
Definition pad (msg : list Z) : list Z :=
  let n := Z.of_nat (length msg) in
  msg ++ [0x80] ++ repeat 0 (Z.to_nat ((55 - n) mod 64))
      ++ be_bytes 8 (8 * n).

(** Big-endian 32-bit words of a byte sequence. *)
Fixpoint words (fuel : nat) (b : list Z) : list Z :=
  match fuel, b with
  | S f, b0 :: b1 :: b2 :: b3 :: rest =>
      (b0 * 2 ^ 24 + b1 * 2 ^ 16 + b2 * 2 ^ 8 + b3) :: words f rest
  | _, _ => []
  end.

(** The message schedule, most recent word first. *)
Fixpoint extend (n : nat) (rw : list Z) : list Z :=
  match n with
  | O => rw
  | S k =>
      let w := add (add (sigma1 (nth 1 rw 0)) (nth 6 rw 0))
                   (add (sigma0 (nth 14 rw 0)) (nth 15 rw 0)) in
      extend k (w :: rw)
  end.

Definition round (s : state) (kw : Z * Z) : state :=
  let '(a, b, c, d, e, f, g, h) := s in
  let (k, w) := kw in
  let t1 := add (add (add h (Sigma1 e)) (add (Ch e f g) k)) w in
  let t2 := add (Sigma0 a) (Maj a b c) in
  (add t1 t2, a, b, c, add d t1, e, f, g).

Definition compress (s : state) (block : list Z) : state :=
  let ws := rev (extend 48 (rev (words 16 block))) in
  let '(a, b, c, d, e, f, g, h) := fold_left round (combine K ws) s in
  let '(a0, b0, c0, d0, e0, f0, g0, h0) := s in
  (add a0 a, add b0 b, add c0 c, add d0 d,
   add e0 e, add f0 f, add g0 g, add h0 h).

Fixpoint blocks (fuel : nat) (s : state) (b : list Z) : state :=
  match fuel, b with
  | S f, _ :: _ => blocks f (compress s (firstn 64 b)) (skipn 64 b)
  | _, _ => s
  end.

Definition digest (s : state) : list Z :=
  let '(a, b, c, d, e, f, g, h) := s in
  be_bytes 4 a ++ be_bytes 4 b ++ be_bytes 4 c ++ be_bytes 4 d
    ++ be_bytes 4 e ++ be_bytes 4 f ++ be_bytes 4 g ++ be_bytes 4 h.

Definition sum (msg : list Z) : list Z :=
  let p := pad msg in digest (blocks (length p) init p).

Definition sum_length (msg : list Z) : length (sum msg) = 32%nat :=
  match blocks (length (pad msg)) init (pad msg) as s
        return length (digest s) = 32%nat
  with
  | (a, b, c, d, e, f, g, h) => eq_refl
  end.

End sha256.

#[export] Instance sha256_Hasher : Hasher :=
  {| HashB := sha256.sum; HashB_length := sha256.sum_length |}.

(** ** A message given by its bytes *)

(** The general implementation of the [Message] interface: a command name
    and an encoder that writes a given payload. *)
Record RawMessage : Type := {
  raw_command : string;
  raw_payload : list Z
}.

Definition RawMessage_BtcEncode {W} `{Writer W} (msg : RawMessage)
  (l : BinaryFreeList) (w : W) (pver : Z) (enc : message.MessageEncoding)
  : option (BinaryFreeList * W * option error) :=
  let (w, err) := Write w (raw_payload msg) in Some (l, w, err).

#[export] Instance RawMessage_Message : message.Message RawMessage := {
  message.BtcEncode := @RawMessage_BtcEncode;
  message.Command := raw_command
}.

(** A payload of 2^32 zero bytes. *)
Definition big_payload : list Z := repeat 0 (Z.to_nat (2 ^ 32)).

(** Byte offsets of the header fields. *)
Definition field (from count : nat) (frame : list Z) : list Z :=
  firstn count (skipn from frame).

(** A read the wait loop passes over: an unknown command, or the
    address-relay announcement. *)
Definition skippable (r : checker.read_result) : Prop :=
  snd r = Some ErrUnknownMessage \/ r = (Some checker.MsgSendAddrV2, None).

(** A network that refuses every connection, and one that accepts
    everything. *)
Definition refusing : Net :=
  {| dial_result := Some (OpError "connection refused");
     deadline_result := None; write_results := []; now := 1700000000 |}.

Definition accepting : Net :=
  {| dial_result := None; deadline_result := None; write_results := [];
     now := 1700000000 |}.

(** A network on which the connection opens and the deadline cannot be
    set. *)
Definition deadline_failing : Net :=
  {| dial_result := None;
     deadline_result := Some (OpError "use of closed network connection");
     write_results := []; now := 1700000000 |}.

(** A version message with every flag set. *)
Definition sample_version : message.MsgVersion :=
  {| message.ProtocolVersion := 70016;
     message.mvServices := 0;
     message.mvTimestamp := 1700000000;
     message.AddrYou := {| Timestamp := 0; Services := 0;
                           IP := Some [127; 0; 0; 1]; Port := 18555 |};
     message.AddrMe := NetAddress_zero;
     message.Nonce := 1;
     message.UserAgent := peer.DefaultUserAgent;
     message.LastBlock := 0;
     message.DisableRelayTx := true |}.

(** The same message with another value of the relay flag. *)
Definition with_relay (b : bool) (msg : message.MsgVersion)
  : message.MsgVersion :=
  {| message.ProtocolVersion := message.ProtocolVersion msg;
     message.mvServices := message.mvServices msg;
     message.mvTimestamp := message.mvTimestamp msg;
     message.AddrYou := message.AddrYou msg;
     message.AddrMe := message.AddrMe msg;
     message.Nonce := message.Nonce msg;
     message.UserAgent := message.UserAgent msg;
     message.LastBlock := message.LastBlock msg;
     message.DisableRelayTx := b |}.

(** A network on which the first write on the connection fails. *)
Definition write_failing : Net :=
  {| dial_result := None; deadline_result := None;
     write_results := [Some (OpError "broken pipe")]; now := 1700000000 |}.

(** The version message an attempt builds from the clock, the host and
    port of the address, and the protocol version. *)
Definition localVerMsg (n : Net) (ip : string) (portUint64 : Z)
  (protocolVersion : Z) : message.MsgVersion :=
  {| message.ProtocolVersion := int32 protocolVersion;
     message.mvServices := 0;
     message.mvTimestamp := now n;
     message.AddrYou := {| Timestamp := now n; Services := 0;
                           IP := net.ParseIP ip;
                           Port := uint16 portUint64 |};
     message.AddrMe := NetAddress_zero;
     message.Nonce := 1;
     message.UserAgent := peer.DefaultUserAgent;
     message.LastBlock := 0;
     message.DisableRelayTx := false |}.

(** A message whose command name has 13 bytes. *)
Definition long_command : RawMessage :=
  {| raw_command := "sendaddrv2ext"; raw_payload := [1; 2; 3] |}.

(** * Properties *)

(** ** Bytes and slices *)

Lemma uint8_shr (v k : Z) :
  0 <= k -> uint8 (shr v k) = (v / 2 ^ k) mod 256.
Proof.
  intros Hk. unfold uint8, shr. rewrite Z.shiftr_div_pow2 by assumption.
  reflexivity.
Qed.

Lemma le_bytes_2 (v : Z) :
  le_bytes 2 v = [uint8 v; uint8 (shr v 8)].
Proof.
  rewrite uint8_shr by lia. reflexivity.
Qed.

Lemma le_bytes_4 (v : Z) :
  le_bytes 4 v = [uint8 v; uint8 (shr v 8); uint8 (shr v 16); uint8 (shr v 24)].
Proof.
  rewrite !uint8_shr by lia. unfold uint8. cbn [le_bytes].
  repeat rewrite Z.div_div by lia. reflexivity.
Qed.

Lemma le_bytes_8 (v : Z) :
  le_bytes 8 v =
  [uint8 v; uint8 (shr v 8); uint8 (shr v 16); uint8 (shr v 24);
   uint8 (shr v 32); uint8 (shr v 40); uint8 (shr v 48); uint8 (shr v 56)].
Proof.
  rewrite !uint8_shr by lia. unfold uint8. cbn [le_bytes].
  repeat rewrite Z.div_div by lia. reflexivity.
Qed.

Lemma le_bytes_length (n : nat) (v : Z) : length (le_bytes n v) = n.
Proof.
  revert v. induction n as [|n IH]; intros v; cbn; [reflexivity|].
  now rewrite IH.
Qed.

Lemma le_value_le_bytes (n : nat) (v : Z) :
  le_value (le_bytes n v) = v mod 256 ^ Z.of_nat n.
Proof.
  revert v. induction n as [|n IH]; intros v.
  - cbn. now rewrite Z.mod_1_r.
  - cbn [le_bytes le_value]. rewrite IH.
    rewrite Nat2Z.inj_succ, Z.pow_succ_r by lia.
    rewrite Z.rem_mul_r by lia. lia.
Qed.

Lemma le_bytes_range (n : nat) (v b : Z) :
  In b (le_bytes n v) -> 0 <= b < 256.
Proof.
  revert v. induction n as [|n IH]; intros v; cbn; [tauto|].
  intros [<-|H]; [apply Z.mod_pos_bound; lia | eauto].
Qed.

Lemma scratch_inv (b : slice) :
  scratch b ->
  exists a0 a1 a2 a3 a4 a5 a6 a7,
    b = Slice.mk [a0; a1; a2; a3; a4; a5; a6; a7] 0 8.
Proof.
  destruct b as [a o n]. unfold scratch. cbn. intros (-> & -> & H).
  do 9 (destruct a as [|? a]; try discriminate).
  repeat eexists.
Qed.

Ltac scratch_done := repeat split; reflexivity.

(** Running the slice operations of a function on a concrete 8-byte
    array: only the slice and byte-order code is unfolded. *)
Ltac slice_run :=
  cbv beta iota zeta delta
    [binary.PutUint16 binary.PutUint32 binary.PutUint64
     binary.LittleEndian binary.BigEndian
     binary.le_PutUint16 binary.le_PutUint32 binary.le_PutUint64
     binary.be_PutUint16 binary.be_PutUint32 binary.be_PutUint64
     obind Slice.set Slice.get Slice.to Slice.range Slice.upd
     Slice.contents Slice.sync Slice.cap Slice.arr Slice.off Slice.len
     Nat.ltb Nat.leb Nat.add Nat.sub andb firstn skipn nth_error length].

Ltac buffer_run :=
  slice_run; cbv beta iota zeta delta [Write Buffer_Writer fst snd].

(** ** The variable-length integer *)

Lemma WriteVarIntBuf_bytes (w : Buffer) (pver val : Z) (buf : slice) :
  scratch buf -> 0 <= val < 2 ^ 64 ->
  exists buf',
    message.WriteVarIntBuf w pver val buf = Some (w ++ varint val, buf', None)
    /\ scratch buf'.
Proof.
  intros Hs Hv. destruct (scratch_inv buf Hs) as (a0&a1&a2&a3&a4&a5&a6&a7&->).
  unfold message.WriteVarIntBuf, varint, message.MaxUint16, message.MaxUint32.
  destruct (val <? 253) eqn:E1.
  - apply Z.ltb_lt in E1. buffer_run.
    unfold uint8. rewrite Z.mod_small by lia.
    eexists; split; [reflexivity|scratch_done].
  - apply Z.ltb_ge in E1. destruct (val <=? 65535) eqn:E2.
    + apply Z.leb_le in E2. rewrite le_bytes_2. buffer_run. unfold uint16. rewrite (Z.mod_small val) by lia.
      eexists; split; [reflexivity|scratch_done].
    + apply Z.leb_gt in E2. destruct (val <=? 4294967295) eqn:E3.
      * apply Z.leb_le in E3. rewrite le_bytes_4. buffer_run. unfold uint32. rewrite (Z.mod_small val) by lia.
        eexists; split; [reflexivity|scratch_done].
      * rewrite le_bytes_8. buffer_run. rewrite <- app_assoc.
        eexists; split; [reflexivity|scratch_done].
Qed.

(** ** Slices: range checks that succeed *)

Lemma upd_length (i : nat) (v : Z) (l : list Z) :
  length (upd i v l) = length l.
Proof.
  revert i. induction l as [|h t IH]; intros [|i]; cbn; auto.
Qed.

Lemma set_ok (s : slice) (i : nat) (v : Z) :
  (i < len s)%nat ->
  set s i v = Some (Slice.mk (upd (off s + i) v (arr s)) (off s) (len s)).
Proof.
  intros Hi. unfold set. apply Nat.ltb_lt in Hi. now rewrite Hi.
Qed.

Lemma get_ok (s : slice) (i : nat) :
  wf s -> (i < len s)%nat ->
  get s i = Some (nth (off s + i) (arr s) 0).
Proof.
  intros Hw Hi. unfold get. pose proof Hi as Hb.
  apply Nat.ltb_lt in Hb. rewrite Hb.
  apply nth_error_nth'. unfold wf in Hw. lia.
Qed.

Lemma to_ok (s : slice) (hi : nat) :
  (hi <= cap s)%nat -> to s hi = Some (Slice.mk (arr s) (off s) hi).
Proof.
  intros H. unfold to. apply Nat.leb_le in H. now rewrite H.
Qed.

Lemma same_shape_refl (s : slice) : same_shape s s.
Proof. now repeat split. Qed.

Lemma same_shape_trans (a b c : slice) :
  same_shape a b -> same_shape b c -> same_shape a c.
Proof.
  unfold same_shape. intros (?&?&?) (?&?&?). repeat split; congruence.
Qed.

Lemma same_shape_wf (s s' : slice) : same_shape s s' -> wf s -> wf s'.
Proof. unfold same_shape, wf. intros (->&->&->). auto. Qed.

Lemma set_shape (s : slice) (i : nat) (v : Z) :
  (i < len s)%nat -> exists s', set s i v = Some s' /\ same_shape s s'.
Proof.
  intros Hi. rewrite set_ok by assumption. eexists; split; [reflexivity|].
  repeat split. cbn. apply upd_length.
Qed.

Lemma fill_shape (data : list Z) :
  forall (b : slice) (i : nat),
    (i + length data <= len b)%nat ->
    exists b', fill b i data = Some b' /\ same_shape b b'.
Proof.
  induction data as [|x rest IH]; intros b i Hi; cbn [fill].
  - exists b. split; [reflexivity | apply same_shape_refl].
  - cbn in Hi. destruct (set_shape b i x) as (b1 & E1 & S1); [lia|].
    rewrite E1. cbn [obind].
    destruct (IH b1 (S i)) as (b2 & E2 & S2).
    + destruct S1 as (_ & -> & _). lia.
    + exists b2. split; [assumption | eapply same_shape_trans; eauto].
Qed.

Lemma ReadFull_shape (r : Reader) (buf : slice) :
  exists r' b' err,
    ReadFull r buf = Some (r', b', err) /\ same_shape buf b'.
Proof.
  unfold ReadFull. destruct (len buf <=? length r)%nat eqn:E.
  - apply Nat.leb_le in E.
    destruct (fill_shape (firstn (len buf) r) buf 0) as (b' & Eb & Sb).
    { rewrite length_firstn. lia. }
    rewrite Eb. cbn [obind]. eauto 6.
  - apply Nat.leb_gt in E.
    destruct (fill_shape r buf 0) as (b' & Eb & Sb); [lia|].
    rewrite Eb. cbn [obind]. eauto 6.
Qed.

(** The stores and loads of the two byte orders stay inside a slice that
    is long enough. *)

Ltac run_sets :=
  repeat (rewrite set_ok by (cbn; lia); cbn [obind off len arr]).

Lemma Put16_shape (bo : binary.ByteOrder) (b : slice) (v : Z) :
  library_order bo -> wf b -> (2 <= len b)%nat ->
  exists b', binary.PutUint16 bo b v = Some b' /\ same_shape b b'.
Proof.
  intros [-> | ->] Hw Hl; cbn [binary.PutUint16 binary.LittleEndian
    binary.BigEndian]; unfold binary.le_PutUint16, binary.be_PutUint16;
    rewrite get_ok by (assumption || lia); cbn [obind]; run_sets;
    (eexists; split; [reflexivity|]); repeat split; cbn;
    now rewrite !upd_length.
Qed.

Lemma Put32_shape (bo : binary.ByteOrder) (b : slice) (v : Z) :
  library_order bo -> wf b -> (4 <= len b)%nat ->
  exists b', binary.PutUint32 bo b v = Some b' /\ same_shape b b'.
Proof.
  intros [-> | ->] Hw Hl; cbn [binary.PutUint32 binary.LittleEndian
    binary.BigEndian]; unfold binary.le_PutUint32, binary.be_PutUint32;
    rewrite get_ok by (assumption || lia); cbn [obind]; run_sets;
    (eexists; split; [reflexivity|]); repeat split; cbn;
    now rewrite !upd_length.
Qed.

Lemma Put64_shape (bo : binary.ByteOrder) (b : slice) (v : Z) :
  library_order bo -> wf b -> (8 <= len b)%nat ->
  exists b', binary.PutUint64 bo b v = Some b' /\ same_shape b b'.
Proof.
  intros [-> | ->] Hw Hl; cbn [binary.PutUint64 binary.LittleEndian
    binary.BigEndian]; unfold binary.le_PutUint64, binary.be_PutUint64;
    rewrite get_ok by (assumption || lia); cbn [obind]; run_sets;
    (eexists; split; [reflexivity|]); repeat split; cbn;
    now rewrite !upd_length.
Qed.

Ltac run_gets Hw :=
  repeat (rewrite get_ok by (assumption || lia); cbn [obind]).

Lemma Uint16_ok (bo : binary.ByteOrder) (b : slice) :
  library_order bo -> wf b -> (2 <= len b)%nat ->
  exists v, binary.Uint16 bo b = Some v.
Proof.
  intros [-> | ->] Hw Hl; cbn [binary.Uint16 binary.LittleEndian
    binary.BigEndian]; unfold binary.le_Uint16, binary.be_Uint16;
    run_gets Hw; eauto.
Qed.

Lemma Uint32_ok (bo : binary.ByteOrder) (b : slice) :
  library_order bo -> wf b -> (4 <= len b)%nat ->
  exists v, binary.Uint32 bo b = Some v.
Proof.
  intros [-> | ->] Hw Hl; cbn [binary.Uint32 binary.LittleEndian
    binary.BigEndian]; unfold binary.le_Uint32, binary.be_Uint32;
    run_gets Hw; eauto.
Qed.

Lemma Uint64_ok (bo : binary.ByteOrder) (b : slice) :
  library_order bo -> wf b -> (8 <= len b)%nat ->
  exists v, binary.Uint64 bo b = Some v.
Proof.
  intros [-> | ->] Hw Hl; cbn [binary.Uint64 binary.LittleEndian
    binary.BigEndian]; unfold binary.le_Uint64, binary.be_Uint64;
    run_gets Hw; eauto.
Qed.

(** ** The scratch pool *)

Lemma scratch_wf (b : slice) : scratch b -> wf b.
Proof. unfold scratch, wf. intros (->&->&->). lia. Qed.

Lemma Borrow_ok (l : BinaryFreeList) :
  pool_ok l ->
  exists b l',
    Borrow l = Some (b, l') /\ scratch b /\ pool_ok l'
    /\ chan_cap l' = chan_cap l
    /\ match queue l with
       | [] => b = make 8 /\ l' = l
       | x :: rest => arr b = arr x /\ queue l' = rest
       end.
Proof.
  intros Hl. unfold Borrow. destruct l as [c q]. cbn in *.
  destruct q as [|x rest].
  - cbn. eexists _, _. split; [reflexivity|].
    repeat split. constructor.
  - unfold pool_ok in Hl. cbn in Hl. inversion Hl as [|? ? [Ho Ha] Hr]; subst.
    rewrite to_ok by (unfold cap; lia). cbn [obind].
    eexists _, _. split; [reflexivity|]. now repeat split.
Qed.

Lemma Return_ok (l : BinaryFreeList) (buf : slice) :
  pool_ok l -> pooled buf -> pool_ok (Return l buf).
Proof.
  intros Hl Hb. unfold Return.
  destruct (length (queue l) <? chan_cap l)%nat; [|assumption].
  unfold pool_ok. cbn. apply Forall_app. split; [assumption|].
  constructor; [assumption | constructor].
Qed.

Lemma Return_full (l : BinaryFreeList) (buf : slice) :
  (chan_cap l <= length (queue l))%nat -> Return l buf = l.
Proof.
  intros H. unfold Return. apply Nat.ltb_ge in H. now rewrite H.
Qed.

Lemma Return_room (l : BinaryFreeList) (buf : slice) :
  (length (queue l) < chan_cap l)%nat ->
  Return l buf = {| chan_cap := chan_cap l; queue := queue l ++ [buf] |}.
Proof.
  intros H. unfold Return. apply Nat.ltb_lt in H. now rewrite H.
Qed.

Lemma pooled_of_shape (b b' : slice) (k : nat) :
  scratch b -> same_shape (Slice.mk (arr b) (off b) k) b' -> pooled b'.
Proof.
  intros (Ho & _ & Ha) (Ho' & _ & Ha'). cbn in *. split; congruence.
Qed.

Lemma binarySerializer_ok : pool_ok message.binarySerializer.
Proof. constructor. Qed.

(** ** The fixed-width writers and readers of the pool *)

Ltac borrow l Hl :=
  let b := fresh "b" in
  let l1 := fresh "l" in
  let E := fresh "EB" in
  let Hs := fresh "Hs" in
  let Hl1 := fresh "Hl" in
  destruct (Borrow_ok l Hl) as (b & l1 & E & Hs & Hl1 & _);
  rewrite E; cbn [obind].

Ltac finish_put Hl1 :=
  match goal with
  | |- context [Write ?w ?p] => destruct (Write w p) as [? ?]
  end;
  cbn [fst snd]; eexists; split; [reflexivity|];
  apply Return_ok; [exact Hl1 | split; reflexivity].

Lemma PutUint8_bytes {W} `{Writer W} (l : BinaryFreeList) (w : W) (v : Z) :
  pool_ok l ->
  exists l', PutUint8 l w v = written l' w [v] /\ pool_ok l'.
Proof.
  intros Hl. unfold PutUint8, written. borrow l Hl.
  destruct (scratch_inv _ Hs) as (a0&a1&a2&a3&a4&a5&a6&a7&->).
  slice_run. finish_put Hl0.
Qed.

Lemma PutUint32_LE_bytes {W} `{Writer W} (l : BinaryFreeList) (w : W)
  (v : Z) :
  pool_ok l ->
  exists l',
    PutUint32 l w binary.LittleEndian v = written l' w (le_bytes 4 v)
    /\ pool_ok l'.
Proof.
  intros Hl. unfold PutUint32, written. borrow l Hl.
  destruct (scratch_inv _ Hs) as (a0&a1&a2&a3&a4&a5&a6&a7&->).
  rewrite le_bytes_4. slice_run. finish_put Hl0.
Qed.

Lemma PutUint64_LE_bytes {W} `{Writer W} (l : BinaryFreeList) (w : W)
  (v : Z) :
  pool_ok l ->
  exists l',
    PutUint64 l w binary.LittleEndian v = written l' w (le_bytes 8 v)
    /\ pool_ok l'.
Proof.
  intros Hl. unfold PutUint64, written. borrow l Hl.
  destruct (scratch_inv _ Hs) as (a0&a1&a2&a3&a4&a5&a6&a7&->).
  rewrite le_bytes_8. slice_run. finish_put Hl0.
Qed.

(** No writer or reader of the pool leaves the range of its buffer, in
    either byte order, and each leaves the pool in order. *)

Ltac finish_safe Hl1 Hs :=
  match goal with
  | |- context [Write ?w ?p] => destruct (Write w p) as [? ?]
  end;
  eexists _, _, _; split; [reflexivity|];
  apply Return_ok; [exact Hl1 | eapply pooled_of_shape; eauto].

Lemma PutUint8_safe {W} `{Writer W} (l : BinaryFreeList) (w : W) (v : Z) :
  pool_ok l ->
  exists l' w' err, PutUint8 l w v = Some (l', w', err) /\ pool_ok l'.
Proof.
  intros Hl. destruct (PutUint8_bytes l w v Hl) as (l' & E & Hl').
  rewrite E. unfold written. eauto 6.
Qed.

Lemma PutUint16_safe {W} `{Writer W} (l : BinaryFreeList) (w : W)
  (bo : binary.ByteOrder) (v : Z) :
  pool_ok l -> library_order bo ->
  exists l' w' err, PutUint16 l w bo v = Some (l', w', err) /\ pool_ok l'.
Proof.
  intros Hl Hbo. unfold PutUint16. borrow l Hl.
  pose proof Hs as (Ho & Hn & Ha).
  rewrite to_ok by (unfold cap; lia). cbn [obind].
  destruct (Put16_shape bo (Slice.mk (arr b) (off b) 2) v Hbo)
    as (b' & E & Sh); [unfold wf; cbn; lia | cbn; lia |].
  rewrite E. cbn [obind]. finish_safe Hl0 Hs.
Qed.

Lemma PutUint32_safe {W} `{Writer W} (l : BinaryFreeList) (w : W)
  (bo : binary.ByteOrder) (v : Z) :
  pool_ok l -> library_order bo ->
  exists l' w' err, PutUint32 l w bo v = Some (l', w', err) /\ pool_ok l'.
Proof.
  intros Hl Hbo. unfold PutUint32. borrow l Hl.
  pose proof Hs as (Ho & Hn & Ha).
  rewrite to_ok by (unfold cap; lia). cbn [obind].
  destruct (Put32_shape bo (Slice.mk (arr b) (off b) 4) v Hbo)
    as (b' & E & Sh); [unfold wf; cbn; lia | cbn; lia |].
  rewrite E. cbn [obind]. finish_safe Hl0 Hs.
Qed.

Lemma PutUint64_safe {W} `{Writer W} (l : BinaryFreeList) (w : W)
  (bo : binary.ByteOrder) (v : Z) :
  pool_ok l -> library_order bo ->
  exists l' w' err, PutUint64 l w bo v = Some (l', w', err) /\ pool_ok l'.
Proof.
  intros Hl Hbo. unfold PutUint64. borrow l Hl.
  pose proof Hs as (Ho & Hn & Ha).
  rewrite to_ok by (unfold cap; lia). cbn [obind].
  destruct (Put64_shape bo (Slice.mk (arr b) (off b) 8) v Hbo)
    as (b' & E & Sh); [unfold wf; cbn; lia | cbn; lia |].
  rewrite E. cbn [obind]. finish_safe Hl0 Hs.
Qed.

Ltac read_into k :=
  match goal with
  | Hs : scratch ?b |- _ =>
      let r' := fresh "r" in
      let b' := fresh "b" in
      let e := fresh "err" in
      let E := fresh "ER" in
      let Sh := fresh "Sh" in
      pose proof Hs as (? & ? & ?);
      rewrite to_ok by (unfold cap; lia); cbn [obind];
      match goal with
      | |- context [ReadFull ?r ?buf] =>
          destruct (ReadFull_shape r buf) as (r' & b' & e & E & Sh);
          rewrite E; cbn [obind]
      end
  end.

Lemma Uint8_safe (l : BinaryFreeList) (r : Reader) :
  pool_ok l ->
  exists l' r' res, Uint8 l r = Some (l', r', res) /\ pool_ok l'.
Proof.
  intros Hl. unfold Uint8. borrow l Hl. read_into 1%nat.
  assert (Hp : pooled b0) by (eapply pooled_of_shape; eauto).
  destruct err as [e|].
  - eexists _, _, _. split; [reflexivity|]. now apply Return_ok.
  - rewrite get_ok.
    + cbn [obind]. eexists _, _, _. split; [reflexivity|].
      now apply Return_ok.
    + eapply same_shape_wf; [exact Sh|]. unfold wf; cbn; lia.
    + destruct Sh as (_ & -> & _). cbn. lia.
Qed.

Lemma Uint16_safe (l : BinaryFreeList) (r : Reader) (bo : binary.ByteOrder) :
  pool_ok l -> library_order bo ->
  exists l' r' res, Uint16 l r bo = Some (l', r', res) /\ pool_ok l'.
Proof.
  intros Hl Hbo. unfold Uint16. borrow l Hl. read_into 2%nat.
  assert (Hp : pooled b0) by (eapply pooled_of_shape; eauto).
  destruct err as [e|].
  - eexists _, _, _. split; [reflexivity|]. now apply Return_ok.
  - destruct (Uint16_ok bo b0 Hbo) as (v & Ev).
    + eapply same_shape_wf; [exact Sh|]. unfold wf; cbn; lia.
    + destruct Sh as (_ & -> & _). cbn. lia.
    + rewrite Ev. cbn [obind]. eexists _, _, _. split; [reflexivity|].
      now apply Return_ok.
Qed.

Lemma Uint32_safe (l : BinaryFreeList) (r : Reader) (bo : binary.ByteOrder) :
  pool_ok l -> library_order bo ->
  exists l' r' res, Uint32 l r bo = Some (l', r', res) /\ pool_ok l'.
Proof.
  intros Hl Hbo. unfold Uint32. borrow l Hl. read_into 4%nat.
  assert (Hp : pooled b0) by (eapply pooled_of_shape; eauto).
  destruct err as [e|].
  - eexists _, _, _. split; [reflexivity|]. now apply Return_ok.
  - destruct (Uint32_ok bo b0 Hbo) as (v & Ev).
    + eapply same_shape_wf; [exact Sh|]. unfold wf; cbn; lia.
    + destruct Sh as (_ & -> & _). cbn. lia.
    + rewrite Ev. cbn [obind]. eexists _, _, _. split; [reflexivity|].
      now apply Return_ok.
Qed.

Lemma Uint64_safe (l : BinaryFreeList) (r : Reader) (bo : binary.ByteOrder) :
  pool_ok l -> library_order bo ->
  exists l' r' res, Uint64 l r bo = Some (l', r', res) /\ pool_ok l'.
Proof.
  intros Hl Hbo. unfold Uint64. borrow l Hl. read_into 8%nat.
  assert (Hp : pooled b0) by (eapply pooled_of_shape; eauto).
  destruct err as [e|].
  - eexists _, _, _. split; [reflexivity|]. now apply Return_ok.
  - destruct (Uint64_ok bo b0 Hbo) as (v & Ev).
    + eapply same_shape_wf; [exact Sh|]. unfold wf; cbn; lia.
    + destruct Sh as (_ & -> & _). cbn. lia.
    + rewrite Ev. cbn [obind]. eexists _, _, _. split; [reflexivity|].
      now apply Return_ok.
Qed.

(** ** Address records and strings *)

Lemma written_Buffer (l : BinaryFreeList) (w : Buffer) (p : list Z) :
  written l w p = Some (l, w ++ p, None).
Proof. reflexivity. Qed.

Lemma be_bytes_2 (v : Z) : be_bytes 2 v = [uint8 (shr v 8); uint8 v].
Proof. unfold be_bytes. rewrite le_bytes_2. reflexivity. Qed.

Lemma copy_ip (ip : option (list Z)) :
  match ip with
  | Some a => match To16 a with
              | Some a16 => copy (repeat 0 16) a16
              | None => repeat 0 16
              end
  | None => repeat 0 16
  end = ip_field ip.
Proof.
  destruct ip as [a|]; [|reflexivity].
  destruct a as [|a0 [|a1 [|a2 [|a3 [|a4 t]]]]]; try reflexivity.
  set (x := a0 :: a1 :: a2 :: a3 :: a4 :: t).
  change (match (if (length x =? 16)%nat then Some x else None) with
          | Some a16 => copy (repeat 0 16) a16
          | None => repeat 0 16
          end = (if (length x =? 16)%nat then x else repeat 0 16)).
  destruct (length x =? 16)%nat eqn:E; [|reflexivity].
  apply Nat.eqb_eq in E. unfold copy. rewrite repeat_length, E.
  rewrite <- E at 1. rewrite firstn_all.
  change (skipn 16 (repeat 0 16)) with (@nil Z). apply app_nil_r.
Qed.

Lemma ip_field_length (ip : option (list Z)) : length (ip_field ip) = 16%nat.
Proof.
  destruct ip as [a|]; [|reflexivity]. unfold ip_field.
  destruct a as [|a0 [|a1 [|a2 [|a3 [|a4 t]]]]]; try reflexivity.
  destruct (length _ =? 16)%nat eqn:E; [|reflexivity].
  now apply Nat.eqb_eq in E.
Qed.

Lemma writeNetAddressBuf_bytes (w : Buffer) (pver : Z) (na : NetAddress)
  (ts : bool) (buf : slice) :
  scratch buf ->
  exists buf',
    message.writeNetAddressBuf w pver na ts buf
    = Some (w ++ addr_record na, buf', None)
    /\ scratch buf'.
Proof.
  intros Hs. destruct (scratch_inv buf Hs) as (a0&a1&a2&a3&a4&a5&a6&a7&->).
  unfold message.writeNetAddressBuf, addr_record.
  rewrite le_bytes_8, be_bytes_2. rewrite copy_ip. buffer_run.
  rewrite <- !app_assoc.
  eexists; split; [reflexivity | scratch_done].
Qed.

Ltac split_writes :=
  repeat match goal with
         | |- context [Write ?w ?p] =>
             let w' := fresh "w" in
             let e := fresh "e" in
             destruct (Write w p) as [w' [e|]];
             cbv beta iota zeta delta [fst snd]
         end.

Lemma writeNetAddressBuf_safe {W} `{Writer W} (w : W) (pver : Z)
  (na : NetAddress) (ts : bool) (buf : slice) :
  scratch buf ->
  exists w' buf' err,
    message.writeNetAddressBuf w pver na ts buf = Some (w', buf', err)
    /\ scratch buf'.
Proof.
  intros Hs. destruct (scratch_inv buf Hs) as (a0&a1&a2&a3&a4&a5&a6&a7&->).
  unfold message.writeNetAddressBuf. rewrite copy_ip. slice_run.
  split_writes; eexists _, _, _; (split; [reflexivity | scratch_done]).
Qed.

Lemma WriteVarIntBuf_safe {W} `{Writer W} (w : W) (pver val : Z)
  (buf : slice) :
  scratch buf ->
  exists w' buf' err,
    message.WriteVarIntBuf w pver val buf = Some (w', buf', err)
    /\ scratch buf'.
Proof.
  intros Hs. destruct (scratch_inv buf Hs) as (a0&a1&a2&a3&a4&a5&a6&a7&->).
  unfold message.WriteVarIntBuf.
  destruct (val <? 253); [|destruct (val <=? message.MaxUint16);
                           [|destruct (val <=? message.MaxUint32)]];
    slice_run; split_writes; eexists _, _, _;
    (split; [reflexivity | scratch_done]).
Qed.

Lemma writeVarStringBuf_safe {W} `{Writer W} (w : W) (pver : Z)
  (s : string) (buf : slice) :
  scratch buf ->
  exists w' buf' err,
    message.writeVarStringBuf w pver s buf = Some (w', buf', err)
    /\ scratch buf'.
Proof.
  intros Hs. unfold message.writeVarStringBuf.
  destruct (WriteVarIntBuf_safe w pver
              (uint64 (Z.of_nat (String.length s))) buf Hs)
    as (w1 & b1 & e1 & E & Hs1).
  rewrite E. cbn [obind]. destruct e1 as [e|]; [eauto 6|].
  destruct (Write w1 (bytes_of_string s)) as [w2 e2]. eauto 6.
Qed.

Lemma pooled_sync (buf buf' : slice) :
  scratch buf -> scratch buf' -> pooled (sync buf buf').
Proof.
  intros (Ho & _ & _) (_ & _ & Ha). split; cbn; assumption.
Qed.

Lemma writeNetAddress_safe {W} `{Writer W} (l : BinaryFreeList) (w : W)
  (pver : Z) (na : NetAddress) (ts : bool) :
  pool_ok l ->
  exists l' w' err,
    message.writeNetAddress l w pver na ts = Some (l', w', err)
    /\ pool_ok l'.
Proof.
  intros Hl. unfold message.writeNetAddress. borrow l Hl.
  destruct (writeNetAddressBuf_safe w pver na ts b Hs)
    as (w1 & b1 & e1 & E & Hs1).
  rewrite E. cbn [obind]. eexists _, _, _. split; [reflexivity|].
  apply Return_ok; [assumption | now apply pooled_sync].
Qed.

Lemma WriteVarString_safe {W} `{Writer W} (l : BinaryFreeList) (w : W)
  (pver : Z) (s : string) :
  pool_ok l ->
  exists l' w' err,
    message.WriteVarString l w pver s = Some (l', w', err) /\ pool_ok l'.
Proof.
  intros Hl. unfold message.WriteVarString. borrow l Hl.
  destruct (writeVarStringBuf_safe w pver s b Hs)
    as (w1 & b1 & e1 & E & Hs1).
  rewrite E. cbn [obind]. eexists _, _, _. split; [reflexivity|].
  apply Return_ok; [assumption | now apply pooled_sync].
Qed.

(** On an in-memory buffer the encoders append their bytes. *)

Lemma writeNetAddress_bytes (l : BinaryFreeList) (w : Buffer) (pver : Z)
  (na : NetAddress) (ts : bool) :
  pool_ok l ->
  exists l',
    message.writeNetAddress l w pver na ts
    = Some (l', w ++ addr_record na, None)
    /\ pool_ok l'.
Proof.
  intros Hl. unfold message.writeNetAddress. borrow l Hl.
  destruct (writeNetAddressBuf_bytes w pver na ts b Hs) as (b1 & E & Hs1).
  rewrite E. cbn [obind]. eexists. split; [reflexivity|].
  apply Return_ok; [assumption | now apply pooled_sync].
Qed.

Lemma uint64_range (v : Z) : 0 <= uint64 v < 2 ^ 64.
Proof. unfold uint64. apply Z.mod_pos_bound. lia. Qed.

Lemma WriteVarString_bytes (l : BinaryFreeList) (w : Buffer) (pver : Z)
  (s : string) :
  pool_ok l ->
  exists l',
    message.WriteVarString l w pver s = Some (l', w ++ varstring s, None)
    /\ pool_ok l'.
Proof.
  intros Hl. unfold message.WriteVarString, message.writeVarStringBuf.
  borrow l Hl.
  destruct (WriteVarIntBuf_bytes w pver
              (uint64 (Z.of_nat (String.length s))) b Hs (uint64_range _))
    as (b1 & E & Hs1).
  rewrite E. cbn. unfold varstring. rewrite <- app_assoc.
  eexists. split; [reflexivity|].
  apply Return_ok; [assumption | now apply pooled_sync].
Qed.

Lemma writeElement_written {W} `{Writer W} (l : BinaryFreeList) (w : W)
  (el : message.element) :
  pool_ok l ->
  exists l',
    message.writeElement l w el = written l' w (element_bytes el)
    /\ pool_ok l'.
Proof.
  intros Hl. destruct el as [e|e|e|e|[|]|e|e|e|e|e|e|e|e|e]; cbn;
    try apply PutUint32_LE_bytes; try apply PutUint64_LE_bytes;
    try apply PutUint8_bytes; try assumption;
    (exists l; split; [|assumption]);
    unfold message.write_array, written;
    destruct (Write w e); reflexivity.
Qed.

Lemma writeElements_bytes (els : list message.element) :
  forall (l : BinaryFreeList) (w : Buffer),
    pool_ok l ->
    exists l',
      message.writeElements l w els
      = Some (l', w ++ concat (map element_bytes els), None)
      /\ pool_ok l'.
Proof.
  induction els as [|el rest IH]; intros l w Hl; cbn [message.writeElements].
  - exists l. cbn. now rewrite app_nil_r.
  - destruct (writeElement_written l w el Hl) as (l1 & E & Hl1).
    rewrite E, written_Buffer. cbn [obind].
    destruct (IH l1 (w ++ element_bytes el) Hl1) as (l2 & E2 & Hl2).
    rewrite E2. cbn. rewrite <- app_assoc. eauto.
Qed.

Lemma writeElements_safe {W} `{Writer W} (els : list message.element) :
  forall (l : BinaryFreeList) (w : W),
    pool_ok l ->
    exists l' w' err,
      message.writeElements l w els = Some (l', w', err) /\ pool_ok l'.
Proof.
  induction els as [|el rest IH]; intros l w Hl; cbn [message.writeElements].
  - eauto 6.
  - destruct (writeElement_written l w el Hl) as (l1 & E & Hl1).
    rewrite E. unfold written. cbn [obind].
    destruct (snd (Write w (element_bytes el))); [eauto 6 | apply IH, Hl1].
Qed.

(** ** The version message *)

Ltac use_spec t :=
  let l' := fresh "l" in
  let E := fresh "E" in
  let H' := fresh "Hl" in
  destruct t as (l' & E & H'); rewrite E; clear E;
  rewrite ?written_Buffer; cbn [obind].

Ltac enc_step :=
  match goal with
  | Hl : pool_ok ?l
    |- context [@message.writeNetAddress _ _ ?l ?w ?p ?na ?ts] =>
      use_spec (writeNetAddress_bytes l w p na ts Hl)
  | Hl : pool_ok ?l
    |- context [@message.WriteVarString _ _ ?l ?w ?p ?s] =>
      use_spec (WriteVarString_bytes l w p s Hl)
  | Hl : pool_ok ?l
    |- context [@message.writeElements _ _ ?l ?w ?els] =>
      use_spec (writeElements_bytes els l w Hl)
  | Hl : pool_ok ?l
    |- context [@message.writeElement ?W ?H ?l ?w ?el] =>
      use_spec (@writeElement_written W H l w el Hl)
  end.

Lemma MsgVersion_BtcEncode_bytes (msg : message.MsgVersion)
  (l : BinaryFreeList) (w : Buffer) (pver : Z)
  (enc : message.MessageEncoding) :
  pool_ok l ->
  exists l',
    message.MsgVersion_BtcEncode msg l w pver enc
    = Some (l', w ++ version_payload msg, None)
    /\ pool_ok l'.
Proof.
  intros Hl. unfold message.MsgVersion_BtcEncode.
  do 6 enc_step.
  eexists. split; [|eassumption].
  unfold version_payload. cbn [map concat element_bytes].
  rewrite app_nil_r. rewrite <- !app_assoc. reflexivity.
Qed.

(** ** The framer *)

Lemma bytes_of_string_length (s : string) :
  length (bytes_of_string s) = String.length s.
Proof.
  unfold bytes_of_string. rewrite length_map.
  induction s as [|c s IH]; cbn; [reflexivity | now rewrite IH].
Qed.

Lemma skipn_repeat_zero (n m : nat) :
  skipn n (repeat 0 m) = repeat 0 (m - n).
Proof.
  revert m. induction n as [|n IH]; intros [|m]; cbn; auto.
Qed.

Lemma copy_command (cmd : string) :
  (String.length cmd <= message.CommandSize)%nat ->
  copy (repeat 0 message.CommandSize) (bytes_of_string cmd)
  = padded_command cmd.
Proof.
  intros H. unfold copy, padded_command.
  rewrite repeat_length, bytes_of_string_length, skipn_repeat_zero.
  rewrite firstn_all2 by (rewrite bytes_of_string_length; exact H).
  reflexivity.
Qed.

Lemma padded_command_length (cmd : string) :
  (String.length cmd <= message.CommandSize)%nat ->
  length (padded_command cmd) = 12%nat.
Proof.
  intros H. unfold padded_command.
  rewrite length_app, bytes_of_string_length, repeat_length.
  unfold message.CommandSize in *. lia.
Qed.

Lemma digest4 `{Hasher} (p : list Z) :
  message.first4 (DoubleHashB p) = Some (firstn 4 (DoubleHashB p))
  /\ copy (repeat 0 4) (firstn 4 (DoubleHashB p)) = firstn 4 (DoubleHashB p)
  /\ length (firstn 4 (DoubleHashB p)) = 4%nat.
Proof.
  assert (L : length (DoubleHashB p) = 32%nat) by apply HashB_length.
  assert (L4 : length (firstn 4 (DoubleHashB p)) = 4%nat)
    by (rewrite length_firstn, L; reflexivity).
  repeat split; [| |exact L4].
  - unfold message.first4. rewrite L. reflexivity.
  - unfold copy. rewrite repeat_length, L4.
    rewrite firstn_all2 by (rewrite L4; lia).
    change (skipn 4 (repeat 0 4)) with (@nil Z). apply app_nil_r.
Qed.

Lemma frame_header_length `{Hasher} (btcnet : Z) (cmd : string)
  (payload : list Z) :
  (String.length cmd <= message.CommandSize)%nat ->
  length (frame_header btcnet cmd payload) = message.MessageHeaderSize.
Proof.
  intros Hc. unfold frame_header.
  rewrite !length_app, !le_bytes_length, padded_command_length by exact Hc.
  destruct (digest4 payload) as (_ & _ & ->). reflexivity.
Qed.

Lemma WriteMessageWithEncodingN_frame {W M} `{Writer W} `{message.Message M}
  `{Hasher} (l l1 : BinaryFreeList) (w : W) (msg : M) (pver btcnet : Z)
  (enc : message.MessageEncoding) (payload : list Z) :
  (String.length (message.Command msg) <= message.CommandSize)%nat ->
  message.BtcEncode msg l ([] : Buffer) pver enc = Some (l1, payload, None) ->
  pool_ok l1 ->
  exists l2,
    message.WriteMessageWithEncodingN l w msg pver btcnet enc
    = write_frame l2 w
        (frame_header btcnet (message.Command msg) payload) payload
    /\ pool_ok l2.
Proof.
  intros Hc He Hl1. unfold message.WriteMessageWithEncodingN.
  pose proof Hc as Hc'. apply Nat.ltb_ge in Hc'. rewrite Hc'.
  rewrite He. cbn [obind].
  destruct (digest4 payload) as (D1 & D2 & _). rewrite D1. cbn [obind].
  cbn [message.magic message.length message.checksum].
  rewrite D2, copy_command by exact Hc.
  enc_step. cbn [map concat element_bytes app].
  exists l0. split; [|assumption].
  unfold write_frame, frame_header. rewrite app_nil_r.
  destruct (Write w _) as [w1 [e|]] eqn:EW.
  - reflexivity.
  - destruct payload as [|x t]; reflexivity.
Qed.

(** ** Matching by derivatives decides the language *)

Import regexp.

Lemma matches_nil_nullable (r : re) (s : list ascii) :
  matches r s -> s = [] -> nullable r = true.
Proof.
  induction 1 as [| | r1 r2 s1 s2 _ IH1 _ IH2 | r1 r2 s _ IH | r1 r2 s _ IH
                 | | r s1 s2 _ _ _ _]; intros E; cbn; auto.
  - discriminate.
  - apply app_eq_nil in E as [-> ->]. now rewrite IH1, IH2.
  - now rewrite IH.
  - rewrite IH by assumption. apply orb_true_r.
Qed.

Lemma nullable_matches_nil (r : re) : nullable r = true -> matches r [].
Proof.
  induction r as [| | p | r1 IH1 r2 IH2 | r1 IH1 r2 IH2 | r IH]; cbn;
    intros E; try discriminate.
  - constructor.
  - apply andb_true_iff in E as [E1 E2].
    change (@nil ascii) with (@nil ascii ++ []). constructor; auto.
  - apply orb_true_iff in E as [E|E];
      [apply m_alt_l | apply m_alt_r]; auto.
  - constructor.
Qed.

Lemma matches_deriv (r : re) (s' : list ascii) :
  matches r s' ->
  forall c s, s' = c :: s -> matches (deriv c r) s.
Proof.
  induction 1 as [| p c0 Hp | r1 r2 s1 s2 H1 IH1 H2 IH2
                 | r1 r2 s0 _ IH | r1 r2 s0 _ IH
                 | | r s1 s2 H1 IH1 H2 IH2]; intros c s E; cbn.
  - discriminate.
  - injection E as -> <-. rewrite Hp. constructor.
  - destruct s1 as [|c1 s1]; cbn in E.
    + rewrite (matches_nil_nullable r1 [] H1 eq_refl).
      apply m_alt_r. now apply IH2.
    + injection E as -> <-.
      assert (G : matches (Cat (deriv c r1) r2) (s1 ++ s2))
        by (constructor; auto).
      destruct (nullable r1); [now apply m_alt_l | exact G].
  - apply m_alt_l. now apply IH.
  - apply m_alt_r. now apply IH.
  - discriminate.
  - destruct s1 as [|c1 s1]; cbn in E.
    + now apply IH2.
    + injection E as -> <-. constructor; auto.
Qed.

Lemma deriv_matches (c : ascii) (r : re) :
  forall s, matches (deriv c r) s -> matches r (c :: s).
Proof.
  induction r as [| | p | r1 IH1 r2 IH2 | r1 IH1 r2 IH2 | r IH];
    intros s H; cbn in H.
  - inversion H.
  - inversion H.
  - destruct (p c) eqn:Hp; inversion H; subst. now constructor.
  - assert (G : forall s, matches (Cat (deriv c r1) r2) s ->
                          matches (Cat r1 r2) (c :: s)).
    { intros s0 H0. inversion H0; subst.
      change (c :: s1 ++ s2) with ((c :: s1) ++ s2). constructor; auto. }
    destruct (nullable r1) eqn:N; [|now apply G].
    inversion H; subst; [now apply G|].
    change (c :: s) with ([] ++ c :: s).
    constructor; [now apply nullable_matches_nil | now apply IH2].
  - inversion H; subst; [apply m_alt_l | apply m_alt_r]; auto.
  - inversion H; subst.
    change (c :: s1 ++ s2) with ((c :: s1) ++ s2). constructor; auto.
Qed.

Lemma run_matches (s : list ascii) :
  forall r, run r s = true <-> matches r s.
Proof.
  induction s as [|c s IH]; intros r; cbn.
  - split; [apply nullable_matches_nil|].
    intros H. now apply (matches_nil_nullable r []).
  - rewrite IH. split; [apply deriv_matches|].
    intros H. now apply (matches_deriv r (c :: s)).
Qed.

(** ** The address pattern and the texts it accepts *)

Lemma cat_inv (r1 r2 : re) (s : list ascii) :
  matches (Cat r1 r2) s ->
  exists s1 s2, s = s1 ++ s2 /\ matches r1 s1 /\ matches r2 s2.
Proof. intros H. inversion H; subst. eauto. Qed.

Lemma lit_inv (a : ascii) (s : list ascii) : matches (lit a) s -> s = [a].
Proof.
  intros H. inversion H as [|p c Hp| | | | |]; subst.
  unfold is_char in Hp. apply Ascii.eqb_eq in Hp. now subst.
Qed.

Lemma digit_inv (s : list ascii) :
  matches digit s -> exists c, s = [c] /\ is_digit c = true.
Proof. intros H. inversion H; subst. eauto. Qed.

Lemma opt_inv (r : re) (s : list ascii) :
  matches (opt r) s -> s = [] \/ matches r s.
Proof. intros H. inversion H as [| | |? ? ? H1|? ? ? H1| |]; subst; auto.
  inversion H1; auto. Qed.

Lemma rep_1_3_inv (s : list ascii) :
  matches (rep_1_3 digit) s -> octet_text s.
Proof.
  intros H. apply cat_inv in H as (s1 & s2 & -> & H1 & H2).
  apply digit_inv in H1 as (c1 & -> & D1).
  apply opt_inv in H2 as [-> | H2].
  { split; cbn; [lia | repeat constructor; assumption]. }
  apply cat_inv in H2 as (s3 & s4 & -> & H3 & H4).
  apply digit_inv in H3 as (c2 & -> & D2).
  apply opt_inv in H4 as [-> | H4].
  { split; cbn; [lia | repeat constructor; assumption]. }
  apply digit_inv in H4 as (c3 & -> & D3).
  split; cbn; [lia | repeat constructor; assumption].
Qed.

Lemma star_digit_inv (r : re) (s : list ascii) :
  matches r s -> r = Star digit -> digits s.
Proof.
  induction 1 as [| | | | | | r0 s1 s2 H1 _ _ IH2]; intros E;
    try discriminate.
  - constructor.
  - injection E as ->. apply digit_inv in H1 as (c & -> & D).
    constructor; [assumption | now apply IH2].
Qed.

Lemma plus_inv (s : list ascii) : matches (plus digit) s -> port_text s.
Proof.
  intros H. apply cat_inv in H as (s1 & s2 & -> & H1 & H2).
  apply digit_inv in H1 as (c & -> & D).
  split; cbn; [lia|].
  constructor; [assumption | now apply (star_digit_inv (Star digit))].
Qed.

Lemma digit_matches (c : ascii) : is_digit c = true -> matches digit [c].
Proof. intros H. now constructor. Qed.

Lemma rep_1_3_matches (s : list ascii) :
  octet_text s -> matches (rep_1_3 digit) s.
Proof.
  intros [Hl Hd]. unfold rep_1_3, opt.
  destruct s as [|c1 [|c2 [|c3 [|c4 t]]]]; cbn in Hl; try lia.
  - inversion Hd; subst.
    change [c1] with ([c1] ++ []). constructor; [now constructor|].
    apply m_alt_l. constructor.
  - inversion Hd as [|? ? D1 Hd']; subst. inversion Hd'; subst.
    change [c1; c2] with ([c1] ++ ([c2] ++ [])).
    constructor; [now constructor|]. apply m_alt_r.
    constructor; [now constructor|]. apply m_alt_l. constructor.
  - inversion Hd as [|? ? D1 Hd']; subst.
    inversion Hd' as [|? ? D2 Hd'']; subst. inversion Hd''; subst.
    change [c1; c2; c3] with ([c1] ++ ([c2] ++ [c3])).
    constructor; [now constructor|]. apply m_alt_r.
    constructor; [now constructor|]. apply m_alt_r. now constructor.
Qed.

Lemma star_digit_matches (s : list ascii) :
  digits s -> matches (Star digit) s.
Proof.
  induction 1 as [|c t D _ IH]; [constructor|].
  change (c :: t) with ([c] ++ t). constructor; [now constructor | exact IH].
Qed.

Lemma plus_matches (s : list ascii) : port_text s -> matches (plus digit) s.
Proof.
  intros [Hl Hd]. destruct s as [|c t]; cbn in Hl; [lia|].
  inversion Hd; subst. change (c :: t) with ([c] ++ t).
  constructor; [now constructor | now apply star_digit_matches].
Qed.

Lemma lit_matches (a : ascii) : matches (lit a) [a].
Proof. constructor. unfold is_char. apply Ascii.eqb_refl. Qed.

Lemma MatchString_well_formed (addr : string) :
  MatchString peer.pattern addr = true <-> well_formed addr.
Proof.
  unfold MatchString. rewrite run_matches. unfold peer.pattern. split.
  - intros H.
    apply cat_inv in H as (o1 & r1 & E1 & H1 & H).
    apply cat_inv in H as (d1 & r2 & E2 & L1 & H).
    apply cat_inv in H as (o2 & r3 & E3 & H2 & H).
    apply cat_inv in H as (d2 & r4 & E4 & L2 & H).
    apply cat_inv in H as (o3 & r5 & E5 & H3 & H).
    apply cat_inv in H as (d3 & r6 & E6 & L3 & H).
    apply cat_inv in H as (o4 & r7 & E7 & H4 & H).
    apply cat_inv in H as (d4 & p & E8 & L4 & H).
    apply lit_inv in L1, L2, L3, L4. subst.
    exists o1, o2, o3, o4, p.
    repeat split; try (apply rep_1_3_inv; assumption);
      try (apply plus_inv; assumption);
      try (apply rep_1_3_inv in H1; apply H1);
      try (apply rep_1_3_inv in H2; apply H2);
      try (apply rep_1_3_inv in H3; apply H3);
      try (apply rep_1_3_inv in H4; apply H4);
      try (apply plus_inv in H; apply H).
    exact E1.
  - intros (o1 & o2 & o3 & o4 & p & H1 & H2 & H3 & H4 & Hp & ->).
    constructor; [now apply rep_1_3_matches|].
    change (matches
      (Cat (lit ".") (Cat (rep_1_3 digit) (Cat (lit ".")
        (Cat (rep_1_3 digit) (Cat (lit ".") (Cat (rep_1_3 digit)
          (Cat (lit ":") (plus digit))))))))
      (["."%char] ++ o2 ++ ["."%char] ++ o3 ++ ["."%char] ++ o4
         ++ [":"%char] ++ p)).
    repeat (constructor;
            [first [apply lit_matches | now apply rep_1_3_matches]|]).
    now apply plus_matches.
Qed.

(** ** The two frames of the engine *)

Lemma send_version {W} `{Writer W} `{Hasher} (l : BinaryFreeList) (w : W)
  (msg : message.MsgVersion) (pver btcnet : Z)
  (enc : message.MessageEncoding) :
  pool_ok l ->
  exists l2,
    message.WriteMessageWithEncodingN l w msg pver btcnet enc
    = write_frame l2 w (frame_header btcnet "version" (version_payload msg))
        (version_payload msg)
    /\ pool_ok l2.
Proof.
  intros Hl.
  destruct (MsgVersion_BtcEncode_bytes msg l [] pver enc Hl)
    as (l1 & E & Hl1).
  destruct (WriteMessageWithEncodingN_frame l l1 w msg pver btcnet enc
              (version_payload msg)) as (l2 & E2 & Hl2);
    [apply Nat.leb_le; reflexivity | exact E | exact Hl1 |].
  exists l2. split; [exact E2 | exact Hl2].
Qed.

Lemma send_verack {W} `{Writer W} `{Hasher} (l : BinaryFreeList) (w : W)
  (pver btcnet : Z) (enc : message.MessageEncoding) :
  pool_ok l ->
  exists l2,
    message.WriteMessageWithEncodingN l w message.mkMsgVerAck pver btcnet enc
    = write_frame l2 w (frame_header btcnet "verack" []) []
    /\ pool_ok l2.
Proof.
  intros Hl.
  destruct (WriteMessageWithEncodingN_frame l l w message.mkMsgVerAck pver
              btcnet enc []) as (l2 & E2 & Hl2);
    [apply Nat.leb_le; reflexivity | reflexivity | exact Hl |].
  exists l2. split; [exact E2 | exact Hl2].
Qed.

Lemma send_raw {W} `{Writer W} `{Hasher} (l : BinaryFreeList) (w : W)
  (msg : RawMessage) (pver btcnet : Z) (enc : message.MessageEncoding) :
  pool_ok l ->
  (String.length (raw_command msg) <= message.CommandSize)%nat ->
  exists l2,
    message.WriteMessageWithEncodingN l w msg pver btcnet enc
    = write_frame l2 w
        (frame_header btcnet (raw_command msg) (raw_payload msg))
        (raw_payload msg)
    /\ pool_ok l2.
Proof.
  intros Hl Hc.
  destruct (WriteMessageWithEncodingN_frame l l w msg pver btcnet enc
              (raw_payload msg)) as (l2 & E2 & Hl2);
    [exact Hc | reflexivity | exact Hl |].
  exists l2. split; [exact E2 | exact Hl2].
Qed.

Lemma write_frame_Buffer (l : BinaryFreeList) (w : Buffer)
  (header payload : list Z) :
  write_frame l w header payload = Some (l, w ++ header ++ payload, None).
Proof.
  unfold write_frame. cbn. destruct payload as [|x t].
  - now rewrite app_nil_r.
  - now rewrite <- app_assoc.
Qed.

(** ** The connection keeps a faithful log *)

Lemma Conn_Write_log (c c' : Conn) (p : list Z) (e : option error) :
  Write c p = (c', e) -> log c' = log c ++ [ev_Write p e].
Proof.
  unfold Write, Conn_Writer. destruct (pending c) as [|r rest];
    intros E; injection E as <- <-; reflexivity.
Qed.

Lemma write_frame_log (l l' : BinaryFreeList) (c c' : Conn)
  (header payload : list Z) (e : option error) :
  write_frame l c header payload = Some (l', c', e) ->
  exists t, log c' = log c ++ t.
Proof.
  unfold write_frame.
  destruct (Write c header) as [c1 e1] eqn:E1.
  apply Conn_Write_log in E1.
  destruct e1 as [e1|].
  - intros E. injection E as _ <- _. eauto.
  - destruct payload as [|x t].
    + intros E. injection E as _ <- _. eauto.
    + destruct (Write c1 (x :: t)) as [c2 e2] eqn:E2.
      apply Conn_Write_log in E2.
      intros E. injection E as _ <- _. rewrite E2, E1, <- app_assoc. eauto.
Qed.

Lemma write_frame_Conn (l : BinaryFreeList) (c : Conn)
  (header payload : list Z) :
  exists c' e t,
    write_frame l c header payload = Some (l, c', e)
    /\ log c' = log c ++ t /\ ~ In ev_Close t.
Proof.
  unfold write_frame.
  destruct (Write c header) as [c1 e1] eqn:E1.
  apply Conn_Write_log in E1.
  assert (N1 : forall p e, ~ In ev_Close [ev_Write p e])
    by (intros p e [D|[]]; discriminate).
  destruct e1 as [e1|]; [eauto 8|].
  destruct payload as [|x t]; [eauto 8|].
  destruct (Write c1 (x :: t)) as [c2 e2] eqn:E2.
  apply Conn_Write_log in E2.
  exists c2, e2, [ev_Write header None; ev_Write (x :: t) e2].
  split; [reflexivity|]. split.
  - rewrite E2, E1, <- app_assoc. reflexivity.
  - intros [D|[D|[]]]; discriminate.
Qed.

(** ** One attempt *)

(** The engine never panics on a pool in order, and what an attempt did is
    read off its trace. *)
Lemma handshake_run `{Hasher} (l : BinaryFreeList) (n : Net)
  (peerAddress : string) (network protocolVersion : Z) :
  pool_ok l ->
  exists l' a,
    peer.handshake l n peerAddress network protocolVersion = Some (l', a)
    /\ pool_ok l'
    /\ (MatchString peer.pattern peerAddress = true ->
        exists t, peer.trace_of a
                  = ev_Dial "tcp" peerAddress (dial_result n) :: t)
    /\ (forall e t,
          a = peer.Failed e t ->
          MatchString peer.pattern peerAddress = true ->
          dial_result n = None -> deadline_result n = None ->
          exists t', t = t' ++ [ev_Close])
    /\ (forall c, a = peer.Established c -> ~ In ev_Close (log c)).
Proof.
  intros Hl. unfold peer.handshake.
  destruct (MatchString peer.pattern peerAddress) eqn:EM; cbn [negb].
  2:{ exists l. eexists. split; [reflexivity|]. split; [assumption|].
      repeat split; intros; discriminate. }
  unfold Dial. destruct (dial_result n) as [ed|] eqn:ED.
  { exists l. eexists. split; [reflexivity|]. split; [assumption|].
    repeat split; intros; try discriminate. cbn. eauto. }
  unfold SetWriteDeadline. cbn [pending log app].
  destruct (deadline_result n) as [edl|] eqn:EDL.
  { exists l. eexists. split; [reflexivity|]. split; [assumption|].
    repeat split; intros; try discriminate. cbn. eauto. }
  destruct (net.SplitHostPort peerAddress) as [[ip port]|es].
  2:{ exists l. eexists. split; [reflexivity|]. split; [assumption|].
      repeat split; intros; try discriminate.
      - cbn. eauto.
      - injection H0 as _ <-. cbn. exists [ev_Dial "tcp" peerAddress None;
          ev_SetWriteDeadline None]. reflexivity. }
  destruct (strconv.ParseUint port 10 16) as [pu [ep|]].
  { exists l. eexists. split; [reflexivity|]. split; [assumption|].
    repeat split; intros; try discriminate.
    - cbn. eauto.
    - injection H0 as _ <-. cbn. exists [ev_Dial "tcp" peerAddress None;
        ev_SetWriteDeadline None]. reflexivity. }
  match goal with
  | |- context [message.WriteMessageWithEncodingN l ?c ?m ?pv ?nw ?enc] =>
      destruct (send_version l c m pv nw enc Hl) as (l2 & E2 & Hl2);
      rewrite E2; clear E2;
      destruct (write_frame_Conn l2 c
                  (frame_header nw "version" (version_payload m))
                  (version_payload m)) as (c1 & e1 & t1 & E1 & L1 & N1);
      rewrite E1; clear E1; cbn [obind]
  end.
  cbn [log] in L1.
  destruct e1 as [e1|].
  { exists l2. eexists. split; [reflexivity|]. split; [assumption|].
    repeat split; intros; try discriminate.
    - cbn. rewrite L1. cbn. eauto.
    - injection H0 as _ <-. cbn. eauto. }
  match goal with
  | |- context [message.WriteMessageWithEncodingN l2 ?c ?m ?pv ?nw ?enc] =>
      destruct (send_verack l2 c pv nw enc Hl2) as (l3 & E3 & Hl3);
      rewrite E3; clear E3;
      destruct (write_frame_Conn l3 c
                  (frame_header nw "verack" []) [])
        as (c2 & e2 & t2 & E2 & L2 & N2);
      rewrite E2; clear E2; cbn [obind]
  end.
  destruct e2 as [e2|].
  { exists l3. eexists. split; [reflexivity|]. split; [assumption|].
    repeat split; intros; try discriminate.
    - cbn. rewrite L2, L1. cbn. eauto.
    - injection H0 as _ <-. cbn. eauto. }
  exists l3. eexists. split; [reflexivity|]. split; [assumption|].
  repeat split; intros; try discriminate.
  - cbn. rewrite L2, L1. cbn. eauto.
  - injection H0 as <-. rewrite L2, L1.
    intros HI. apply in_app_or in HI as [HI|HI]; [|tauto].
    apply in_app_or in HI as [HI|HI]; [|tauto].
    destruct HI as [D|[D|[]]]; discriminate.
Qed.

(** ** Fields of a frame header *)

Lemma field_head (count : nat) (a rest : list Z) :
  length a = count -> field 0 count (a ++ rest) = a.
Proof.
  intros <-. unfold field. cbn [skipn].
  rewrite firstn_app, Nat.sub_diag, firstn_all. cbn. apply app_nil_r.
Qed.

Lemma field_skip (from count : nat) (a rest : list Z) :
  length a = from -> field from count (a ++ rest) = field 0 count rest.
Proof.
  intros <-. unfold field. rewrite skipn_app, Nat.sub_diag, skipn_all.
  reflexivity.
Qed.

Lemma header_fields `{Hasher} (btcnet : Z) (cmd : string) (payload : list Z)
  (rest : list Z) :
  (String.length cmd <= message.CommandSize)%nat ->
  let hdr := frame_header btcnet cmd payload in
  field 0 4 (hdr ++ rest) = le_bytes 4 (uint32 btcnet)
  /\ field 4 12 (hdr ++ rest) = padded_command cmd
  /\ field 16 4 (hdr ++ rest)
     = le_bytes 4 (uint32 (Z.of_nat (length payload)))
  /\ field 20 4 (hdr ++ rest) = firstn 4 (DoubleHashB payload).
Proof.
  intros Hc hdr. subst hdr. unfold frame_header.
  pose proof (padded_command_length cmd Hc) as Lc.
  destruct (digest4 payload) as (_ & _ & Ld).
  rewrite <- !app_assoc. split; [|split; [|split]].
  - apply field_head, le_bytes_length.
  - rewrite (field_skip 4) by apply le_bytes_length.
    now apply field_head.
  - rewrite (app_assoc (le_bytes 4 _) (padded_command cmd)).
    rewrite (field_skip 16)
      by (rewrite length_app, le_bytes_length, Lc; reflexivity).
    apply field_head, le_bytes_length.
  - rewrite (app_assoc (le_bytes 4 _) (padded_command cmd)).
    rewrite (app_assoc (_ ++ _) (le_bytes 4 _)).
    rewrite (field_skip 20)
      by (rewrite !length_app, !le_bytes_length, Lc; reflexivity).
    now apply field_head.
Qed.

Lemma big_payload_length : Z.of_nat (length big_payload) = 2 ^ 32.
Proof.
  unfold big_payload. rewrite repeat_length. apply Z2Nat.id.
  apply Z.pow_nonneg. lia.
Qed.

(** ** The retry loop *)

Lemma Handshake_loop_fail `{Hasher} (fuel i : nat)
  (l l' : BinaryFreeList) (nets : nat -> Net) (err : option error)
  (t : list event) (addr : string) (nw pv : Z) (e : error)
  (t' : list event) :
  peer.handshake l (nets i) addr nw pv = Some (l', peer.Failed e t') ->
  peer.Handshake_loop (S fuel) i l nets err t addr nw pv
  = peer.Handshake_loop fuel (S i) l' nets (Some e)
      (t ++ t' ++ [ev_Println (Error e)]) addr nw pv.
Proof. intros E. cbn [peer.Handshake_loop]. rewrite E. reflexivity. Qed.

Lemma Handshake_loop_ok `{Hasher} (fuel i : nat)
  (l l' : BinaryFreeList) (nets : nat -> Net) (err : option error)
  (t : list event) (addr : string) (nw pv : Z) (c : Conn) :
  peer.handshake l (nets i) addr nw pv = Some (l', peer.Established c) ->
  peer.Handshake_loop (S fuel) i l nets err t addr nw pv
  = Some (l', inl c, t ++ log c).
Proof. intros E. cbn [peer.Handshake_loop]. rewrite E. reflexivity. Qed.

(** ** Errors compared with the sentinel *)

Lemma error_eqb_unknown (e : error) :
  error_eqb e ErrUnknownMessage = true <-> e = ErrUnknownMessage.
Proof. destruct e; cbn; split; intros; congruence. Qed.

(** ** Reading back what was written *)

Lemma lor_shiftl_add (a b n : Z) :
  0 <= n -> 0 <= a < 2 ^ n -> Z.lor a (Z.shiftl b n) = a + b * 2 ^ n.
Proof.
  intros Hn Ha. rewrite Z.shiftl_mul_pow2 by assumption.
  rewrite <- Z.lxor_lor.
  - symmetry. apply Z.add_nocarry_lxor.
    apply Z.bits_inj'. intros i Hi. rewrite Z.land_spec, Z.bits_0.
    destruct (Z.lt_ge_cases i n) as [Hlt|Hge].
    + rewrite Z.mul_pow2_bits_low by assumption. apply andb_false_r.
    + destruct (Z.eq_dec a 0) as [->|Hz]; [now rewrite Z.bits_0|].
      rewrite (Z.bits_above_log2 a i); [reflexivity | lia |].
      apply Z.lt_le_trans with n; [|assumption].
      apply Z.log2_lt_pow2; lia.
  - apply Z.bits_inj'. intros i Hi. rewrite Z.land_spec, Z.bits_0.
    destruct (Z.lt_ge_cases i n) as [Hlt|Hge].
    + rewrite Z.mul_pow2_bits_low by assumption. apply andb_false_r.
    + destruct (Z.eq_dec a 0) as [->|Hz]; [now rewrite Z.bits_0|].
      rewrite (Z.bits_above_log2 a i); [reflexivity | lia |].
      apply Z.lt_le_trans with n; [|assumption].
      apply Z.log2_lt_pow2; lia.
Qed.

Lemma uint8_range (v : Z) : 0 <= uint8 v < 256.
Proof. unfold uint8. apply Z.mod_pos_bound. lia. Qed.

Lemma le_join_4 (v : Z) :
  0 <= v < 2 ^ 32 ->
  Z.lor (Z.lor (Z.lor (uint8 v) (Z.shiftl (uint8 (shr v 8)) 8))
               (Z.shiftl (uint8 (shr v 16)) 16))
        (Z.shiftl (uint8 (shr v 24)) 24) = v.
Proof.
  intros Hv.
  pose proof (uint8_range v). pose proof (uint8_range (shr v 8)).
  pose proof (uint8_range (shr v 16)). pose proof (uint8_range (shr v 24)).
  rewrite (lor_shiftl_add (uint8 v)) by lia.
  rewrite (lor_shiftl_add (uint8 v + _)) by lia.
  rewrite (lor_shiftl_add (uint8 v + _ + _)) by lia.
  pose proof (le_value_le_bytes 4 v) as L. rewrite le_bytes_4 in L.
  cbn [le_value] in L. change (256 ^ Z.of_nat 4) with (2 ^ 32) in L.
  rewrite Z.mod_small in L by assumption. lia.
Qed.

Lemma le_join_2 (v : Z) :
  0 <= v < 2 ^ 16 ->
  Z.lor (uint8 v) (Z.shiftl (uint8 (shr v 8)) 8) = v.
Proof.
  intros Hv.
  pose proof (uint8_range v). pose proof (uint8_range (shr v 8)).
  rewrite (lor_shiftl_add (uint8 v)) by lia.
  pose proof (le_value_le_bytes 2 v) as L. rewrite le_bytes_2 in L.
  cbn [le_value] in L. change (256 ^ Z.of_nat 2) with (2 ^ 16) in L.
  rewrite Z.mod_small in L by assumption. lia.
Qed.

Lemma le_join_8 (v : Z) :
  0 <= v < 2 ^ 64 ->
  Z.lor (Z.lor (Z.lor (Z.lor (Z.lor (Z.lor (Z.lor
    (uint8 v) (Z.shiftl (uint8 (shr v 8)) 8))
    (Z.shiftl (uint8 (shr v 16)) 16)) (Z.shiftl (uint8 (shr v 24)) 24))
    (Z.shiftl (uint8 (shr v 32)) 32)) (Z.shiftl (uint8 (shr v 40)) 40))
    (Z.shiftl (uint8 (shr v 48)) 48)) (Z.shiftl (uint8 (shr v 56)) 56) = v.
Proof.
  intros Hv.
  pose proof (uint8_range v). pose proof (uint8_range (shr v 8)).
  pose proof (uint8_range (shr v 16)). pose proof (uint8_range (shr v 24)).
  pose proof (uint8_range (shr v 32)). pose proof (uint8_range (shr v 40)).
  pose proof (uint8_range (shr v 48)). pose proof (uint8_range (shr v 56)).
  rewrite (lor_shiftl_add (uint8 v)) by lia.
  rewrite (lor_shiftl_add (uint8 v + _)) by lia.
  rewrite (lor_shiftl_add (uint8 v + _ + _)) by lia.
  rewrite (lor_shiftl_add (uint8 v + _ + _ + _)) by lia.
  rewrite (lor_shiftl_add (uint8 v + _ + _ + _ + _)) by lia.
  rewrite (lor_shiftl_add (uint8 v + _ + _ + _ + _ + _)) by lia.
  rewrite (lor_shiftl_add (uint8 v + _ + _ + _ + _ + _ + _)) by lia.
  pose proof (le_value_le_bytes 8 v) as L. rewrite le_bytes_8 in L.
  cbn [le_value] in L. change (256 ^ Z.of_nat 8) with (2 ^ 64) in L.
  rewrite Z.mod_small in L by assumption. lia.
Qed.

Ltac read_run :=
  cbv beta iota zeta delta
    [ReadFull fill app
     binary.Uint16 binary.Uint32 binary.Uint64
     binary.LittleEndian binary.BigEndian
     binary.le_Uint16 binary.le_Uint32 binary.le_Uint64
     binary.be_Uint16 binary.be_Uint32 binary.be_Uint64
     obind Slice.set Slice.get Slice.to Slice.range Slice.upd
     Slice.contents Slice.sync Slice.cap Slice.arr Slice.off Slice.len
     Nat.ltb Nat.leb Nat.add Nat.sub andb firstn skipn nth_error length].

Ltac finish_read Hl1 :=
  eexists; split; [reflexivity|];
  apply Return_ok; [exact Hl1 | split; reflexivity].

Lemma Uint8_reads (l : BinaryFreeList) (x : Z) (rest : list Z) :
  pool_ok l ->
  exists l', Uint8 l (x :: rest) = Some (l', rest, (x, None)) /\ pool_ok l'.
Proof.
  intros Hl. unfold Uint8. borrow l Hl.
  destruct (scratch_inv _ Hs) as (a0&a1&a2&a3&a4&a5&a6&a7&->).
  read_run. finish_read Hl0.
Qed.

Lemma Uint16_LE_reads (l : BinaryFreeList) (v : Z) (rest : list Z) :
  pool_ok l -> 0 <= v < 2 ^ 16 ->
  exists l',
    Uint16 l (le_bytes 2 v ++ rest) binary.LittleEndian
    = Some (l', rest, (v, None))
    /\ pool_ok l'.
Proof.
  intros Hl Hv. unfold Uint16. borrow l Hl.
  destruct (scratch_inv _ Hs) as (a0&a1&a2&a3&a4&a5&a6&a7&->).
  rewrite le_bytes_2. read_run. rewrite le_join_2 by assumption.
  finish_read Hl0.
Qed.

Lemma Uint16_BE_reads (l : BinaryFreeList) (v : Z) (rest : list Z) :
  pool_ok l -> 0 <= v < 2 ^ 16 ->
  exists l',
    Uint16 l (be_bytes 2 v ++ rest) binary.BigEndian
    = Some (l', rest, (v, None))
    /\ pool_ok l'.
Proof.
  intros Hl Hv. unfold Uint16. borrow l Hl.
  destruct (scratch_inv _ Hs) as (a0&a1&a2&a3&a4&a5&a6&a7&->).
  rewrite be_bytes_2. read_run. rewrite le_join_2 by assumption.
  finish_read Hl0.
Qed.

Lemma Uint32_LE_reads (l : BinaryFreeList) (v : Z) (rest : list Z) :
  pool_ok l -> 0 <= v < 2 ^ 32 ->
  exists l',
    Uint32 l (le_bytes 4 v ++ rest) binary.LittleEndian
    = Some (l', rest, (v, None))
    /\ pool_ok l'.
Proof.
  intros Hl Hv. unfold Uint32. borrow l Hl.
  destruct (scratch_inv _ Hs) as (a0&a1&a2&a3&a4&a5&a6&a7&->).
  rewrite le_bytes_4. read_run. rewrite le_join_4 by assumption.
  finish_read Hl0.
Qed.

Lemma Uint64_LE_reads (l : BinaryFreeList) (v : Z) (rest : list Z) :
  pool_ok l -> 0 <= v < 2 ^ 64 ->
  exists l',
    Uint64 l (le_bytes 8 v ++ rest) binary.LittleEndian
    = Some (l', rest, (v, None))
    /\ pool_ok l'.
Proof.
  intros Hl Hv. unfold Uint64. borrow l Hl.
  destruct (scratch_inv _ Hs) as (a0&a1&a2&a3&a4&a5&a6&a7&->).
  rewrite le_bytes_8. read_run. rewrite le_join_8 by assumption.
  finish_read Hl0.
Qed.

Lemma PutUint16_bytes {W} `{Writer W} (l : BinaryFreeList) (w : W) (v : Z) :
  pool_ok l ->
  (exists l',
     PutUint16 l w binary.LittleEndian v = written l' w (le_bytes 2 v)
     /\ pool_ok l')
  /\ (exists l',
        PutUint16 l w binary.BigEndian v = written l' w (be_bytes 2 v)
        /\ pool_ok l').
Proof.
  intros Hl. split; unfold PutUint16, written; borrow l Hl;
    destruct (scratch_inv _ Hs) as (a0&a1&a2&a3&a4&a5&a6&a7&->);
    rewrite ?le_bytes_2, ?be_bytes_2; slice_run; finish_put Hl0.
Qed.

(** A reader that runs out: the value is zero and the error tells an
    empty reader from a short one. *)
Lemma Uint32_short (l : BinaryFreeList) (r : Reader)
  (bo : binary.ByteOrder) :
  pool_ok l -> (length r < 4)%nat ->
  exists l',
    Uint32 l r bo
    = Some (l', [], (0, Some (match r with
                              | [] => io_EOF
                              | _ => io_ErrUnexpectedEOF
                              end)))
    /\ pool_ok l'.
Proof.
  intros Hl Hr. unfold Uint32. borrow l Hl.
  destruct (scratch_inv _ Hs) as (a0&a1&a2&a3&a4&a5&a6&a7&->).
  destruct r as [|x0 [|x1 [|x2 [|x3 r]]]]; cbn in Hr; try lia;
    read_run; finish_read Hl0.
Qed.

(** * The claims *)

(** C1 (the code departs from the claim).  The version encoder writes the
    protocol version, the services, the timestamp, the two address records,
    the nonce, the user agent behind its length and the last block, in this
    order, and stops there: the payload ends with the four bytes of the last
    block, and it is the same whatever [DisableRelayTx] holds, so no byte
    of the payload encodes the relay flag. *)
Theorem MsgVersion_BtcEncode_no_relay_flag (msg : message.MsgVersion)
  (l : BinaryFreeList) (w : Buffer) (pver : Z)
  (enc : message.MessageEncoding) :
  pool_ok l ->
  exists l',
    message.BtcEncode msg l w pver enc
    = Some (l',
            w ++ le_bytes 4 (uint32 (message.ProtocolVersion msg))
              ++ le_bytes 8 (uint64 (message.mvServices msg))
              ++ le_bytes 8 (uint64 (message.mvTimestamp msg))
              ++ addr_record (message.AddrYou msg)
              ++ addr_record (message.AddrMe msg)
              ++ le_bytes 8 (message.Nonce msg)
              ++ varstring (message.UserAgent msg)
              ++ le_bytes 4 (uint32 (message.LastBlock msg)),
            None)
    /\ forall b : bool,
         message.BtcEncode (with_relay b msg) l w pver enc
         = message.BtcEncode msg l w pver enc.
Proof.
  intros Hl.
  destruct (MsgVersion_BtcEncode_bytes msg l w pver enc Hl) as (l1 & E & _).
  exists l1. split; [exact E|].
  intros b. reflexivity.
Qed.

Lemma MsgVersion_BtcEncode_no_relay_flag_witness :
  pool_ok message.binarySerializer
  /\ exists l',
       message.BtcEncode sample_version message.binarySerializer
         ([] : Buffer) 70016 message.WitnessEncoding
       = Some (l',
               [] ++ le_bytes 4 (uint32 (message.ProtocolVersion
                                           sample_version))
                 ++ le_bytes 8 (uint64 (message.mvServices sample_version))
                 ++ le_bytes 8 (uint64 (message.mvTimestamp sample_version))
                 ++ addr_record (message.AddrYou sample_version)
                 ++ addr_record (message.AddrMe sample_version)
                 ++ le_bytes 8 (message.Nonce sample_version)
                 ++ varstring (message.UserAgent sample_version)
                 ++ le_bytes 4 (uint32 (message.LastBlock sample_version)),
               None)
       /\ forall b : bool,
            message.BtcEncode (with_relay b sample_version)
              message.binarySerializer ([] : Buffer) 70016
              message.WitnessEncoding
            = message.BtcEncode sample_version message.binarySerializer
                ([] : Buffer) 70016 message.WitnessEncoding.
Proof.
  split; [constructor|].
  apply (MsgVersion_BtcEncode_no_relay_flag sample_version
           message.binarySerializer [] 70016 message.WitnessEncoding).
  constructor.
Defined.

(** C2 (the code departs from the claim).  When the stream has been opened
    and setting the write deadline fails, the attempt returns that error
    after two events, the dial and the failed deadline call: the stream is
    not closed. *)
Theorem handshake_deadline_failure_leaves_stream_open `{Hasher}
  (l : BinaryFreeList) (n : Net) (peerAddress : string)
  (network protocolVersion : Z) (e : error) :
  MatchString peer.pattern peerAddress = true ->
  dial_result n = None ->
  deadline_result n = Some e ->
  peer.handshake l n peerAddress network protocolVersion
  = Some (l, peer.Failed e [ev_Dial "tcp" peerAddress None;
                            ev_SetWriteDeadline (Some e)])
  /\ ~ In ev_Close [ev_Dial "tcp" peerAddress None;
                    ev_SetWriteDeadline (Some e)].
Proof.
  intros EM ED EDL. split.
  - unfold peer.handshake. rewrite EM. cbn [negb].
    unfold Dial. rewrite ED. unfold SetWriteDeadline. rewrite EDL.
    reflexivity.
  - intros [D|[D|[]]]; discriminate.
Qed.

Lemma handshake_deadline_failure_leaves_stream_open_witness :
  MatchString peer.pattern "127.0.0.1:18555" = true
  /\ dial_result deadline_failing = None
  /\ deadline_result deadline_failing
     = Some (OpError "use of closed network connection")
  /\ peer.handshake message.binarySerializer deadline_failing
       "127.0.0.1:18555" SimNet 70016
     = Some (message.binarySerializer,
             peer.Failed (OpError "use of closed network connection")
               [ev_Dial "tcp" "127.0.0.1:18555" None;
                ev_SetWriteDeadline
                  (Some (OpError "use of closed network connection"))])
  /\ ~ In ev_Close
         [ev_Dial "tcp" "127.0.0.1:18555" None;
          ev_SetWriteDeadline
            (Some (OpError "use of closed network connection"))].
Proof.
  split; [reflexivity|]. split; [reflexivity|]. split; [reflexivity|].
  apply (handshake_deadline_failure_leaves_stream_open
           message.binarySerializer deadline_failing "127.0.0.1:18555"
           SimNet 70016 (OpError "use of closed network connection"));
    reflexivity.
Defined.

Lemma first_send_not_skippable (s : checker.stream) (t : nat)
  (v : option error) :
  checker.first_send s = Some (t, v) ->
  exists r, In (t, r) s /\ ~ skippable r.
Proof.
  induction s as [|[t0 [m err]] rest IH]; cbn; [discriminate|].
  assert (K : checker.first_send rest = Some (t, v) ->
              exists r, In (t, r) ((t0, (m, err)) :: rest) /\ ~ skippable r).
  { intros E. destruct (IH E) as (r & Hi & Hs). exists r.
    split; [now right | assumption]. }
  destruct err as [e|].
  - destruct (error_eqb e ErrUnknownMessage) eqn:Ee; [exact K|].
    intros E. injection E as <- <-. exists (m, Some e).
    split; [now left|]. intros [Hs|Hs]; cbn in Hs.
    + injection Hs as ->. discriminate.
    + discriminate.
  - destruct m as [[| |cmd]|]; try exact K; intros E; injection E as <- <-;
      eexists; (split; [now left|]); intros [Hs|Hs]; discriminate.
Qed.

(** C3.  The wait loop passes over a read that reports an unknown command
    and over the address-relay announcement and goes on reading; inside
    the one-second window an acknowledgement ends the wait with no error,
    any other message ends it with the invalid-handshake error, and a read
    error ends it with that error; when every read that returns inside the
    window is one the loop passes over, the call returns the timeout
    error. *)
Theorem WaitToFinishNegotiation_classifies :
  (forall t m s,
     checker.WaitToFinishNegotiation ((t, (m, Some ErrUnknownMessage)) :: s)
     = checker.WaitToFinishNegotiation s)
  /\ (forall t s,
        checker.WaitToFinishNegotiation
          ((t, (Some checker.MsgSendAddrV2, None)) :: s)
        = checker.WaitToFinishNegotiation s)
  /\ (forall t s,
        (t < checker.window)%nat ->
        checker.WaitToFinishNegotiation
          ((t, (Some checker.MsgVerAck, None)) :: s)
        = None)
  /\ (forall t cmd s,
        (t < checker.window)%nat ->
        checker.WaitToFinishNegotiation
          ((t, (Some (checker.MsgOther cmd), None)) :: s)
        = Some ErrInvalidHandshake)
  /\ (forall t m e s,
        (t < checker.window)%nat -> e <> ErrUnknownMessage ->
        checker.WaitToFinishNegotiation ((t, (m, Some e)) :: s) = Some e)
  /\ (forall s,
        (forall t r, In (t, r) s -> (t < checker.window)%nat ->
                     skippable r) ->
        checker.WaitToFinishNegotiation s = Some checker.ErrTimeout).
Proof.
  repeat apply conj.
  - reflexivity.
  - reflexivity.
  - intros t s Ht. unfold checker.WaitToFinishNegotiation.
    cbn [checker.first_send]. apply Nat.ltb_lt in Ht. now rewrite Ht.
  - intros t cmd s Ht. unfold checker.WaitToFinishNegotiation.
    cbn [checker.first_send]. apply Nat.ltb_lt in Ht. now rewrite Ht.
  - intros t m e s Ht He. unfold checker.WaitToFinishNegotiation.
    cbn [checker.first_send].
    destruct (error_eqb e ErrUnknownMessage) eqn:Ee.
    + apply error_eqb_unknown in Ee. contradiction.
    + apply Nat.ltb_lt in Ht. now rewrite Ht.
  - intros s Hs. unfold checker.WaitToFinishNegotiation.
    destruct (checker.first_send s) as [[t v]|] eqn:E; [|reflexivity].
    destruct (t <? checker.window)%nat eqn:Et; [|reflexivity].
    apply Nat.ltb_lt in Et.
    destruct (first_send_not_skippable s t v E) as (r & Hi & Hn).
    exfalso. apply Hn. now apply (Hs t r).
Qed.

Lemma WaitToFinishNegotiation_classifies_witness :
  (10 < checker.window)%nat
  /\ checker.WaitToFinishNegotiation
       [(5%nat, (None, Some ErrUnknownMessage));
        (10%nat, (Some checker.MsgVerAck, None))]
     = None.
Proof.
  split; [unfold checker.window; lia|].
  destruct WaitToFinishNegotiation_classifies as (U & _ & A & _).
  rewrite U. apply A. unfold checker.window. lia.
Defined.

(** C4 (the code departs from the claim).  The address encoder writes the
    services on 8 bytes little-endian, 16 address bytes (zero for a nil
    address, the IPv4-mapped form for a 4-byte address) and the port on 2
    bytes big-endian, 26 bytes in all; the argument [ts] changes nothing:
    with [ts] true the bytes are those written with [ts] false, and no
    timestamp precedes them. *)
Theorem writeNetAddressBuf_ignores_ts (w : Buffer) (pver : Z)
  (na : NetAddress) (ts : bool) (buf : slice) :
  scratch buf ->
  (exists buf',
     message.writeNetAddressBuf w pver na ts buf
     = Some (w ++ le_bytes 8 (uint64 (Services na)) ++ ip_field (IP na)
               ++ be_bytes 2 (Port na), buf', None))
  /\ length (le_bytes 8 (uint64 (Services na)) ++ ip_field (IP na)
               ++ be_bytes 2 (Port na)) = 26%nat
  /\ ip_field None = repeat 0 16
  /\ (forall a b c d,
        ip_field (Some [a; b; c; d])
        = [0; 0; 0; 0; 0; 0; 0; 0; 0; 0; 0xff; 0xff; a; b; c; d])
  /\ message.writeNetAddressBuf w pver na true buf
     = message.writeNetAddressBuf w pver na false buf.
Proof.
  intros Hs. split; [|split; [|split; [|split]]].
  - destruct (writeNetAddressBuf_bytes w pver na ts buf Hs) as (b' & E & _).
    exists b'. exact E.
  - rewrite !length_app, le_bytes_length, ip_field_length. reflexivity.
  - reflexivity.
  - reflexivity.
  - reflexivity.
Qed.

Lemma writeNetAddressBuf_ignores_ts_witness :
  scratch (make 8)
  /\ (exists buf',
        message.writeNetAddressBuf ([] : Buffer) 70016
          (message.AddrYou sample_version) true (make 8)
        = Some ([] ++ le_bytes 8 (uint64 (Services
                                     (message.AddrYou sample_version)))
                  ++ ip_field (IP (message.AddrYou sample_version))
                  ++ be_bytes 2 (Port (message.AddrYou sample_version)),
                buf', None)).
Proof.
  split; [repeat split|].
  apply (writeNetAddressBuf_ignores_ts [] 70016
           (message.AddrYou sample_version) true (make 8)).
  repeat split.
Defined.



(** C5, the counterexample.  For a payload of 2^32 bytes the length field
    of the frame is zero, not the length of the payload. *)
#[local] Opaque big_payload.


(** C6.  Written with a scratch buffer, a 64-bit value below 0xFD is one
    byte; a value from 0xFD to 0xFFFF is the byte 0xFD and the value on 2
    bytes little-endian; a value from 0x10000 to 0xFFFFFFFF is the byte
    0xFE and the value on 4 bytes little-endian; a larger value is the
    byte 0xFF and the value on 8 bytes little-endian.  The bytes after the
    marker denote the value.  At the thresholds: 0xFC is one byte, 0xFD and
    0xFFFF take the 2-byte form, 0x10000 takes the 4-byte form. *)
Theorem WriteVarIntBuf_encoding (w : Buffer) (pver val : Z) (buf : slice) :
  scratch buf -> 0 <= val < 2 ^ 64 ->
  (exists out buf',
     message.WriteVarIntBuf w pver val buf = Some (w ++ out, buf', None)
     /\ (val < 0xfd -> out = [val])
     /\ (0xfd <= val <= 0xffff ->
         out = 0xfd :: le_bytes 2 val /\ le_value (le_bytes 2 val) = val)
     /\ (0x10000 <= val <= 0xffffffff ->
         out = 0xfe :: le_bytes 4 val /\ le_value (le_bytes 4 val) = val)
     /\ (0xffffffff < val ->
         out = 0xff :: le_bytes 8 val /\ le_value (le_bytes 8 val) = val))
  /\ (exists b, message.WriteVarIntBuf w pver 0xfc buf
                = Some (w ++ [0xfc], b, None))
  /\ (exists b, message.WriteVarIntBuf w pver 0xfd buf
                = Some (w ++ [0xfd; 0xfd; 0x00], b, None))
  /\ (exists b, message.WriteVarIntBuf w pver 0xffff buf
                = Some (w ++ [0xfd; 0xff; 0xff], b, None))
  /\ (exists b, message.WriteVarIntBuf w pver 0x10000 buf
                = Some (w ++ [0xfe; 0x00; 0x00; 0x01; 0x00], b, None)).
Proof.
  intros Hs Hv.
  assert (B : forall v, 0 <= v < 2 ^ 64 ->
                exists b, message.WriteVarIntBuf w pver v buf
                          = Some (w ++ varint v, b, None)).
  { intros v Hv'.
    destruct (WriteVarIntBuf_bytes w pver v buf Hs Hv') as (b & E & _).
    eauto. }
  split;
    [| split; [apply (B 252); lia
      | split; [apply (B 253); lia
      | split; [apply (B 65535); lia | apply (B 65536); lia]]]].
  destruct (B val Hv) as (b & E). exists (varint val), b.
  split; [exact E|]. unfold varint.
  split; [|split; [|split]].
  - intros H. apply Z.ltb_lt in H. now rewrite H.
  - intros [H1 H2]. apply Z.ltb_ge in H1. apply Z.leb_le in H2.
    rewrite H1, H2. split; [reflexivity|].
    rewrite le_value_le_bytes. apply Z.mod_small.
    apply Z.leb_le in H2. apply Z.ltb_ge in H1. lia.
  - intros [H1 H2].
    assert (E1 : (val <? 253) = false) by (apply Z.ltb_ge; lia).
    assert (E2 : (val <=? 65535) = false) by (apply Z.leb_gt; lia).
    assert (E3 : (val <=? 4294967295) = true) by (apply Z.leb_le; lia).
    rewrite E1, E2, E3. split; [reflexivity|].
    rewrite le_value_le_bytes. apply Z.mod_small. lia.
  - intros H1.
    assert (E1 : (val <? 253) = false) by (apply Z.ltb_ge; lia).
    assert (E2 : (val <=? 65535) = false) by (apply Z.leb_gt; lia).
    assert (E3 : (val <=? 4294967295) = false) by (apply Z.leb_gt; lia).
    rewrite E1, E2, E3. split; [reflexivity|].
    rewrite le_value_le_bytes. apply Z.mod_small.
    change (256 ^ Z.of_nat 8) with (2 ^ 64). lia.
Qed.

Lemma WriteVarIntBuf_encoding_witness :
  scratch (make 8) /\ 0 <= 0x12345 < 2 ^ 64
  /\ exists out buf',
       message.WriteVarIntBuf ([] : Buffer) 70016 0x12345 (make 8)
       = Some ([] ++ out, buf', None)
       /\ (0x10000 <= 0x12345 <= 0xffffffff ->
           out = 0xfe :: le_bytes 4 0x12345).
Proof.
  split; [repeat split|]. split; [lia|].
  destruct (WriteVarIntBuf_encoding [] 70016 0x12345 (make 8))
    as ((out & b & E & _ & _ & C & _) & _).
  - repeat split.
  - lia.
  - exists out, b. split; [exact E|]. intros R. apply (C R).
Defined.

(** C7.  An address that is not four groups of one to three digits
    separated by dots, a colon and digits makes the attempt fail at once
    with the address-format error and an empty trace: nothing is dialled
    and nothing is written. *)
Theorem handshake_rejects_malformed_address `{Hasher} (l : BinaryFreeList)
  (n : Net) (peerAddress : string) (network protocolVersion : Z) :
  ~ well_formed peerAddress ->
  peer.handshake l n peerAddress network protocolVersion
  = Some (l, peer.Failed (errors_New "incorrect peer address format") []).
Proof.
  intros Hn. unfold peer.handshake.
  destruct (MatchString peer.pattern peerAddress) eqn:EM; [|reflexivity].
  apply MatchString_well_formed in EM. contradiction.
Qed.

Lemma handshake_rejects_malformed_address_witness :
  ~ well_formed "localhost:8333"
  /\ peer.handshake message.binarySerializer accepting "localhost:8333"
       MainNet 70016
     = Some (message.binarySerializer,
             peer.Failed (errors_New "incorrect peer address format") []).
Proof.
  assert (N : ~ well_formed "localhost:8333").
  { intros W. apply MatchString_well_formed in W. discriminate W. }
  split; [exact N|].
  apply (handshake_rejects_malformed_address message.binarySerializer
           accepting "localhost:8333" MainNet 70016 N).
Defined.

(** C8.  The wrapper runs whole attempts one after the other.  The first
    attempt that succeeds ends the loop and its connection is returned:
    after a success at the first, second or third attempt no further
    attempt is made.  When three attempts have failed the wrapper stops,
    and the error it returns names the three attempts and carries the text
    of the third failure. *)
Theorem Handshake_retries `{Hasher} (l : BinaryFreeList) (nets : nat -> Net)
  (addr : string) (nw pv : Z) :
  (forall l1 c,
     peer.handshake l (nets 0%nat) addr nw pv
     = Some (l1, peer.Established c) ->
     peer.Handshake l nets addr nw pv = Some (l1, inl c, log c))
  /\ (forall l1 e1 t1 l2 c,
        peer.handshake l (nets 0%nat) addr nw pv
        = Some (l1, peer.Failed e1 t1) ->
        peer.handshake l1 (nets 1%nat) addr nw pv
        = Some (l2, peer.Established c) ->
        peer.Handshake l nets addr nw pv
        = Some (l2, inl c, t1 ++ [ev_Println (Error e1)] ++ log c))
  /\ (forall l1 e1 t1 l2 e2 t2 l3 c,
        peer.handshake l (nets 0%nat) addr nw pv
        = Some (l1, peer.Failed e1 t1) ->
        peer.handshake l1 (nets 1%nat) addr nw pv
        = Some (l2, peer.Failed e2 t2) ->
        peer.handshake l2 (nets 2%nat) addr nw pv
        = Some (l3, peer.Established c) ->
        peer.Handshake l nets addr nw pv
        = Some (l3, inl c,
                t1 ++ [ev_Println (Error e1)] ++ t2
                   ++ [ev_Println (Error e2)] ++ log c))
  /\ (forall l1 e1 t1 l2 e2 t2 l3 e3 t3,
        peer.handshake l (nets 0%nat) addr nw pv
        = Some (l1, peer.Failed e1 t1) ->
        peer.handshake l1 (nets 1%nat) addr nw pv
        = Some (l2, peer.Failed e2 t2) ->
        peer.handshake l2 (nets 2%nat) addr nw pv
        = Some (l3, peer.Failed e3 t3) ->
        peer.Handshake l nets addr nw pv
        = Some (l3,
                inr (errors_New
                       ("handshake failed after 3 retries with the error "
                        ++ Error e3)),
                t1 ++ [ev_Println (Error e1)] ++ t2
                   ++ [ev_Println (Error e2)] ++ t3
                   ++ [ev_Println (Error e3)])).
Proof.
  unfold peer.Handshake, peer.HandshakeRetries. repeat apply conj.
  - intros l1 c E1. now rewrite (Handshake_loop_ok _ _ _ _ _ _ _ _ _ _ _ E1).
  - intros l1 e1 t1 l2 c E1 E2.
    rewrite (Handshake_loop_fail _ _ _ _ _ _ _ _ _ _ _ _ E1).
    rewrite (Handshake_loop_ok _ _ _ _ _ _ _ _ _ _ _ E2).
    cbn [app]. now rewrite <- app_assoc.
  - intros l1 e1 t1 l2 e2 t2 l3 c E1 E2 E3.
    rewrite (Handshake_loop_fail _ _ _ _ _ _ _ _ _ _ _ _ E1).
    rewrite (Handshake_loop_fail _ _ _ _ _ _ _ _ _ _ _ _ E2).
    rewrite (Handshake_loop_ok _ _ _ _ _ _ _ _ _ _ _ E3).
    cbn [app]. now rewrite <- !app_assoc.
  - intros l1 e1 t1 l2 e2 t2 l3 e3 t3 E1 E2 E3.
    rewrite (Handshake_loop_fail _ _ _ _ _ _ _ _ _ _ _ _ E1).
    rewrite (Handshake_loop_fail _ _ _ _ _ _ _ _ _ _ _ _ E2).
    rewrite (Handshake_loop_fail _ _ _ _ _ _ _ _ _ _ _ _ E3).
    cbn [peer.Handshake_loop obind app]. now rewrite <- !app_assoc.
Qed.

Lemma Handshake_retries_witness :
  peer.handshake message.binarySerializer refusing "127.0.0.1:123"
    SimNet 70016
  = Some (message.binarySerializer,
          peer.Failed (OpError "connection refused")
            [ev_Dial "tcp" "127.0.0.1:123"
               (Some (OpError "connection refused"))])
  /\ peer.Handshake message.binarySerializer (fun _ => refusing)
       "127.0.0.1:123" SimNet 70016
     = Some (message.binarySerializer,
             inr (errors_New
                    ("handshake failed after 3 retries with the error "
                     ++ Error (OpError "connection refused"))),
             [ev_Dial "tcp" "127.0.0.1:123"
                (Some (OpError "connection refused"))]
               ++ [ev_Println (Error (OpError "connection refused"))]
               ++ [ev_Dial "tcp" "127.0.0.1:123"
                     (Some (OpError "connection refused"))]
               ++ [ev_Println (Error (OpError "connection refused"))]
               ++ [ev_Dial "tcp" "127.0.0.1:123"
                     (Some (OpError "connection refused"))]
               ++ [ev_Println (Error (OpError "connection refused"))]).
Proof.
  split; [reflexivity|].
  apply (proj2 (proj2 (proj2
           (Handshake_retries message.binarySerializer (fun _ => refusing)
              "127.0.0.1:123" SimNet 70016)))
           message.binarySerializer (OpError "connection refused")
           [ev_Dial "tcp" "127.0.0.1:123"
              (Some (OpError "connection refused"))]
           message.binarySerializer (OpError "connection refused")
           [ev_Dial "tcp" "127.0.0.1:123"
              (Some (OpError "connection refused"))]
           message.binarySerializer (OpError "connection refused")
           [ev_Dial "tcp" "127.0.0.1:123"
              (Some (OpError "connection refused"))]);
    reflexivity.
Defined.

(** C9.  The address check looks at digits only.  Every address made of
    four groups of one to three digits separated by dots, a colon and one
    or more digits passes it, whatever the values of the groups, and the
    attempt goes on to dial that address: the trace of the attempt starts
    with the dial.  The address 999.999.999.999:1 is one of them, although
    no IPv4 address has this text. *)
Theorem handshake_dials_digit_pattern `{Hasher} (l : BinaryFreeList)
  (n : Net) (peerAddress : string) (network protocolVersion : Z) :
  pool_ok l -> well_formed peerAddress ->
  MatchString peer.pattern peerAddress = true
  /\ (exists l' a t,
        peer.handshake l n peerAddress network protocolVersion
        = Some (l', a)
        /\ peer.trace_of a
           = ev_Dial "tcp" peerAddress (dial_result n) :: t)
  /\ well_formed "999.999.999.999:1"
  /\ net.ParseIP "999.999.999.999" = None.
Proof.
  intros Hl Hw. apply MatchString_well_formed in Hw.
  split; [exact Hw|]. split; [|split; [|reflexivity]].
  - destruct (handshake_run l n peerAddress network protocolVersion Hl)
      as (l' & a & E & _ & T & _).
    destruct (T Hw) as (t & Et). eauto 6.
  - apply MatchString_well_formed. reflexivity.
Qed.

Lemma handshake_dials_digit_pattern_witness :
  pool_ok message.binarySerializer /\ well_formed "999.999.999.999:1"
  /\ exists l' a t,
       peer.handshake message.binarySerializer refusing "999.999.999.999:1"
         MainNet 70016
       = Some (l', a)
       /\ peer.trace_of a
          = ev_Dial "tcp" "999.999.999.999:1" (dial_result refusing) :: t.
Proof.
  assert (W : well_formed "999.999.999.999:1")
    by (apply MatchString_well_formed; reflexivity).
  split; [constructor|]. split; [exact W|].
  apply (handshake_dials_digit_pattern message.binarySerializer refusing
           "999.999.999.999:1" MainNet 70016); [constructor | exact W].
Defined.



(** * Further properties of the code *)

Lemma version_payload_cons (msg : message.MsgVersion) :
  exists x t, version_payload msg = x :: t.
Proof. unfold version_payload. cbn [le_bytes app]. eauto. Qed.

(** X1.  Once the stream is open and its write deadline is set, every
    failure of the attempt closes the stream before it returns: the trace
    of the failed attempt ends with the close. *)
Theorem handshake_failure_after_deadline_closes `{Hasher}
  (l l' : BinaryFreeList) (n : Net) (peerAddress : string)
  (network protocolVersion : Z) (e : error) (t : list event) :
  pool_ok l ->
  MatchString peer.pattern peerAddress = true ->
  dial_result n = None -> deadline_result n = None ->
  peer.handshake l n peerAddress network protocolVersion
  = Some (l', peer.Failed e t) ->
  exists t', t = t' ++ [ev_Close].
Proof.
  intros Hl EM ED EDL E.
  destruct (handshake_run l n peerAddress network protocolVersion Hl)
    as (l1 & a & E1 & _ & _ & C & _).
  rewrite E in E1. injection E1 as <- <-.
  now apply (C e t).
Qed.

Lemma handshake_failure_after_deadline_closes_witness :
  exists t',
    [ev_Dial "tcp" "127.0.0.1:18555" None; ev_SetWriteDeadline None;
     ev_Write (frame_header SimNet "version"
                 (version_payload
                    (localVerMsg write_failing "127.0.0.1" 18555 70016)))
       (Some (OpError "broken pipe"));
     ev_Close] = t' ++ [ev_Close].
Proof.
  apply (handshake_failure_after_deadline_closes
           message.binarySerializer
           {| chan_cap := 1024;
              queue := [{| arr := [100; 0; 0; 0; 0; 0; 0; 0];
                           off := 0; len := 4 |}] |}
           write_failing "127.0.0.1:18555" SimNet 70016
           (OpError "broken pipe")).
  - constructor.
  - reflexivity.
  - reflexivity.
  - reflexivity.
  - vm_compute. reflexivity.
Defined.

Ltac conn_run :=
  cbv beta iota zeta delta
    [write_frame Write Conn_Writer Close pending log app obind].

(** X2.  On a network that accepts the connection, the deadline and every
    write, an attempt on an address whose port parses returns the open
    connection after exactly three writes: the header of the version frame,
    its payload, and the header of the acknowledgement frame, which has no
    payload.  The stream is not closed. *)
Theorem handshake_success_trace `{Hasher} (l : BinaryFreeList) (n : Net)
  (peerAddress ip port : string) (portUint64 : Z)
  (network protocolVersion : Z) :
  pool_ok l ->
  MatchString peer.pattern peerAddress = true ->
  dial_result n = None -> deadline_result n = None ->
  write_results n = [] ->
  net.SplitHostPort peerAddress = inl (ip, port) ->
  strconv.ParseUint port 10 16 = (portUint64, None) ->
  exists l',
    peer.handshake l n peerAddress network protocolVersion
    = Some (l', peer.Established
        {| pending := [];
           log :=
             [ev_Dial "tcp" peerAddress None;
              ev_SetWriteDeadline None;
              ev_Write (frame_header network "version"
                          (version_payload
                             (localVerMsg n ip portUint64 protocolVersion)))
                None;
              ev_Write (version_payload
                          (localVerMsg n ip portUint64 protocolVersion))
                None;
              ev_Write (frame_header network "verack" []) None] |})
    /\ pool_ok l'.
Proof.
  intros Hl EM ED EDL EW ES EP. unfold peer.handshake.
  rewrite EM. cbn [negb]. unfold Dial. rewrite ED.
  unfold SetWriteDeadline. rewrite EDL, EW, ES, EP. cbn [pending log app].
  fold (localVerMsg n ip portUint64 protocolVersion).
  match goal with
  | |- context [message.WriteMessageWithEncodingN l ?c ?m ?pv ?nw ?enc] =>
      destruct (send_version l c m pv nw enc Hl) as (l2 & E2 & Hl2);
      rewrite E2; clear E2
  end.
  destruct (version_payload_cons
              (localVerMsg n ip portUint64 protocolVersion))
    as (x & t & Ev).
  rewrite Ev. conn_run. rewrite <- Ev.
  match goal with
  | |- context [@message.WriteMessageWithEncodingN ?W _ ?HW _ ?HH
                   l2 ?c ?m ?pv ?nw ?enc] =>
      destruct (@send_verack W HW HH l2 c pv nw enc Hl2)
        as (l3 & E3 & Hl3);
      rewrite E3; clear E3
  end.
  conn_run. exists l3. split; [reflexivity | exact Hl3].
Qed.

Lemma handshake_success_trace_witness :
  exists l',
    peer.handshake message.binarySerializer accepting "127.0.0.1:18555"
      SimNet 70016
    = Some (l', peer.Established
        {| pending := [];
           log :=
             [ev_Dial "tcp" "127.0.0.1:18555" None;
              ev_SetWriteDeadline None;
              ev_Write (frame_header SimNet "version"
                          (version_payload
                             (localVerMsg accepting "127.0.0.1" 18555
                                70016)))
                None;
              ev_Write (version_payload
                          (localVerMsg accepting "127.0.0.1" 18555 70016))
                None;
              ev_Write (frame_header SimNet "verack" []) None] |})
    /\ pool_ok l'.
Proof.
  apply (handshake_success_trace message.binarySerializer accepting
           "127.0.0.1:18555" "127.0.0.1" "18555" 18555 SimNet 70016);
    try reflexivity.
  constructor.
Defined.

(** X3.  When the write of the version frame fails, the attempt closes the
    stream and returns that error; the acknowledgement frame is never
    written. *)
Theorem handshake_version_write_failure `{Hasher} (l : BinaryFreeList)
  (n : Net) (peerAddress ip port : string) (portUint64 : Z)
  (network protocolVersion : Z) (e : error) (rest : list (option error)) :
  pool_ok l ->
  MatchString peer.pattern peerAddress = true ->
  dial_result n = None -> deadline_result n = None ->
  write_results n = Some e :: rest ->
  net.SplitHostPort peerAddress = inl (ip, port) ->
  strconv.ParseUint port 10 16 = (portUint64, None) ->
  exists l',
    peer.handshake l n peerAddress network protocolVersion
    = Some (l', peer.Failed e
        [ev_Dial "tcp" peerAddress None;
         ev_SetWriteDeadline None;
         ev_Write (frame_header network "version"
                     (version_payload
                        (localVerMsg n ip portUint64 protocolVersion)))
           (Some e);
         ev_Close])
    /\ pool_ok l'.
Proof.
  intros Hl EM ED EDL EW ES EP. unfold peer.handshake.
  rewrite EM. cbn [negb]. unfold Dial. rewrite ED.
  unfold SetWriteDeadline. rewrite EDL, EW, ES, EP. cbn [pending log app].
  fold (localVerMsg n ip portUint64 protocolVersion).
  match goal with
  | |- context [message.WriteMessageWithEncodingN l ?c ?m ?pv ?nw ?enc] =>
      destruct (send_version l c m pv nw enc Hl) as (l2 & E2 & Hl2);
      rewrite E2; clear E2
  end.
  conn_run. exists l2. split; [reflexivity | exact Hl2].
Qed.

Lemma handshake_version_write_failure_witness :
  exists l',
    peer.handshake message.binarySerializer write_failing
      "127.0.0.1:18555" SimNet 70016
    = Some (l', peer.Failed (OpError "broken pipe")
        [ev_Dial "tcp" "127.0.0.1:18555" None;
         ev_SetWriteDeadline None;
         ev_Write (frame_header SimNet "version"
                     (version_payload
                        (localVerMsg write_failing "127.0.0.1" 18555
                           70016)))
           (Some (OpError "broken pipe"));
         ev_Close])
    /\ pool_ok l'.
Proof.
  apply (handshake_version_write_failure message.binarySerializer
           write_failing "127.0.0.1:18555" "127.0.0.1" "18555" 18555
           SimNet 70016 (OpError "broken pipe") []);
    try reflexivity.
  constructor.
Defined.



(** X5.  What the fixed-width writers of the pool put on a buffer, the
    readers of the pool read back: for every width and every value of that
    width, reading the written bytes yields the value with no error and
    leaves the bytes that follow.  The 16-bit pair agrees in both byte
    orders. *)
Theorem fixed_width_round_trip (l : BinaryFreeList) (rest : list Z) :
  pool_ok l ->
  (forall v, 0 <= v < 2 ^ 8 ->
     exists l1 l2,
       PutUint8 l ([] : Buffer) v = Some (l1, [v], None)
       /\ Uint8 l1 ([v] ++ rest) = Some (l2, rest, (v, None)))
  /\ (forall v, 0 <= v < 2 ^ 16 ->
        exists l1 l2 out,
          PutUint16 l ([] : Buffer) binary.LittleEndian v
          = Some (l1, out, None)
          /\ Uint16 l1 (out ++ rest) binary.LittleEndian
             = Some (l2, rest, (v, None)))
  /\ (forall v, 0 <= v < 2 ^ 16 ->
        exists l1 l2 out,
          PutUint16 l ([] : Buffer) binary.BigEndian v
          = Some (l1, out, None)
          /\ Uint16 l1 (out ++ rest) binary.BigEndian
             = Some (l2, rest, (v, None)))
  /\ (forall v, 0 <= v < 2 ^ 32 ->
        exists l1 l2 out,
          PutUint32 l ([] : Buffer) binary.LittleEndian v
          = Some (l1, out, None)
          /\ Uint32 l1 (out ++ rest) binary.LittleEndian
             = Some (l2, rest, (v, None)))
  /\ (forall v, 0 <= v < 2 ^ 64 ->
        exists l1 l2 out,
          PutUint64 l ([] : Buffer) binary.LittleEndian v
          = Some (l1, out, None)
          /\ Uint64 l1 (out ++ rest) binary.LittleEndian
             = Some (l2, rest, (v, None))).
Proof.
  intros Hl. split; [|split; [|split; [|split]]]; intros v Hv.
  - destruct (PutUint8_bytes l ([] : Buffer) v Hl) as (l1 & E1 & Hl1).
    destruct (Uint8_reads l1 v rest Hl1) as (l2 & E2 & _).
    exists l1, l2. split; [exact E1 | exact E2].
  - destruct (PutUint16_bytes l ([] : Buffer) v Hl)
      as ((l1 & E1 & Hl1) & _).
    destruct (Uint16_LE_reads l1 v rest Hl1 Hv) as (l2 & E2 & _).
    exists l1, l2, (le_bytes 2 v). split; [exact E1 | exact E2].
  - destruct (PutUint16_bytes l ([] : Buffer) v Hl)
      as (_ & (l1 & E1 & Hl1)).
    destruct (Uint16_BE_reads l1 v rest Hl1 Hv) as (l2 & E2 & _).
    exists l1, l2, (be_bytes 2 v). split; [exact E1 | exact E2].
  - destruct (PutUint32_LE_bytes l ([] : Buffer) v Hl) as (l1 & E1 & Hl1).
    destruct (Uint32_LE_reads l1 v rest Hl1 Hv) as (l2 & E2 & _).
    exists l1, l2, (le_bytes 4 v). split; [exact E1 | exact E2].
  - destruct (PutUint64_LE_bytes l ([] : Buffer) v Hl) as (l1 & E1 & Hl1).
    destruct (Uint64_LE_reads l1 v rest Hl1 Hv) as (l2 & E2 & _).
    exists l1, l2, (le_bytes 8 v). split; [exact E1 | exact E2].
Qed.

Lemma fixed_width_round_trip_witness :
  exists l1 l2 out,
    PutUint32 message.binarySerializer ([] : Buffer) binary.LittleEndian
      SimNet
    = Some (l1, out, None)
    /\ Uint32 l1 (out ++ [7; 7]) binary.LittleEndian
       = Some (l2, [7; 7], (SimNet, None)).
Proof.
  destruct (fixed_width_round_trip message.binarySerializer [7; 7])
    as (_ & _ & _ & R & _).
  - constructor.
  - apply R. unfold SimNet. lia.
Defined.



(** X7.  A message whose command name is longer than 12 bytes is refused
    before anything is encoded or written: the framer returns the error
    naming the command and leaves the writer and the pool as they were. *)
Theorem WriteMessageWithEncodingN_command_too_long {W M} `{Writer W}
  `{message.Message M} `{Hasher} (l : BinaryFreeList) (w : W) (msg : M)
  (pver btcnet : Z) (enc : message.MessageEncoding) :
  (12 < String.length (message.Command msg))%nat ->
  message.WriteMessageWithEncodingN l w msg pver btcnet enc
  = Some (l, w,
          Some (errors_New ("command [" ++ message.Command msg
                            ++ "] is too long [max 12]"))).
Proof.
  intros Hc. unfold message.WriteMessageWithEncodingN.
  apply Nat.ltb_lt in Hc. unfold message.CommandSize. now rewrite Hc.
Qed.

Lemma WriteMessageWithEncodingN_command_too_long_witness :
  message.WriteMessageWithEncodingN message.binarySerializer
    ([] : Buffer) long_command 70016 MainNet message.WitnessEncoding
  = Some (message.binarySerializer, [],
          Some (errors_New
                  "command [sendaddrv2ext] is too long [max 12]")).
Proof.
  assert (Hc : (12 < String.length (message.Command long_command))%nat)
    by (cbn; lia).
  exact (WriteMessageWithEncodingN_command_too_long
           message.binarySerializer ([] : Buffer) long_command 70016
           MainNet message.WitnessEncoding Hc).
Defined.

(** X8.  When the write of the header fails on a connection, the framer
    returns that error and does not write the payload: the connection has
    seen one write, the 24-byte header. *)
Theorem WriteMessageWithEncodingN_header_failure {M}
  `{message.Message M} `{Hasher} (l l1 : BinaryFreeList) (c : Conn)
  (msg : M) (pver btcnet : Z) (enc : message.MessageEncoding)
  (payload : list Z) (e : error) (rest : list (option error)) :
  (String.length (message.Command msg) <= 12)%nat ->
  message.BtcEncode msg l ([] : Buffer) pver enc = Some (l1, payload, None) ->
  pool_ok l1 ->
  pending c = Some e :: rest ->
  exists l2,
    message.WriteMessageWithEncodingN l c msg pver btcnet enc
    = Some (l2,
            {| pending := rest;
               log := log c
                        ++ [ev_Write (frame_header btcnet
                                        (message.Command msg) payload)
                              (Some e)] |},
            Some e)
    /\ length (frame_header btcnet (message.Command msg) payload) = 24%nat.
Proof.
  intros Hc He Hl1 Hp.
  destruct (WriteMessageWithEncodingN_frame l l1 c msg pver btcnet enc
              payload Hc He Hl1) as (l2 & E & _).
  exists l2. split; [|now apply frame_header_length].
  rewrite E. unfold write_frame, Write, Conn_Writer. rewrite Hp.
  reflexivity.
Qed.

Lemma WriteMessageWithEncodingN_header_failure_witness :
  exists l2,
    message.WriteMessageWithEncodingN message.binarySerializer
      {| pending := [Some (OpError "broken pipe")]; log := [] |}
      {| raw_command := "ping"; raw_payload := [1; 2; 3] |}
      70016 MainNet message.WitnessEncoding
    = Some (l2,
            {| pending := [];
               log := [] ++ [ev_Write (frame_header MainNet "ping"
                                         [1; 2; 3])
                               (Some (OpError "broken pipe"))] |},
            Some (OpError "broken pipe"))
    /\ length (frame_header MainNet "ping" [1; 2; 3]) = 24%nat.
Proof.
  destruct (WriteMessageWithEncodingN_header_failure
              message.binarySerializer message.binarySerializer
              {| pending := [Some (OpError "broken pipe")]; log := [] |}
              {| raw_command := "ping"; raw_payload := [1; 2; 3] |}
              70016 MainNet message.WitnessEncoding [1; 2; 3]
              (OpError "broken pipe") []) as (l2 & E & L).
  - cbn. lia.
  - reflexivity.
  - constructor.
  - reflexivity.
  - exists l2. split; [exact E | exact L].
Defined.

Lemma varint_length (v : Z) :
  length (varint v)
  = if v <? 0xfd then 1%nat
    else if v <=? 0xffff then 3%nat
    else if v <=? 0xffffffff then 5%nat else 9%nat.
Proof.
  unfold varint.
  destruct (v <? 253); [reflexivity|].
  destruct (v <=? 65535); [reflexivity|].
  destruct (v <=? 4294967295); reflexivity.
Qed.

Lemma addr_record_length (na : NetAddress) :
  length (addr_record na) = 26%nat.
Proof.
  unfold addr_record.
  rewrite !length_app, le_bytes_length, ip_field_length. reflexivity.
Qed.

(** X9.  The payload of a version message has 84 bytes of fixed fields
    around the user agent: for a user agent shorter than 253 bytes the
    encoder writes [85 + len(UserAgent)] bytes, the user agent behind a
    one-byte length. *)
Theorem MsgVersion_BtcEncode_size (msg : message.MsgVersion)
  (l : BinaryFreeList) (pver : Z) (enc : message.MessageEncoding) :
  pool_ok l ->
  (String.length (message.UserAgent msg) < 253)%nat ->
  exists l' out,
    message.BtcEncode msg l ([] : Buffer) pver enc = Some (l', out, None)
    /\ length out = (85 + String.length (message.UserAgent msg))%nat
    /\ field 80 1 out
       = [Z.of_nat (String.length (message.UserAgent msg))]
    /\ field 81 (String.length (message.UserAgent msg)) out
       = bytes_of_string (message.UserAgent msg).
Proof.
  intros Hl Hu.
  destruct (MsgVersion_BtcEncode_bytes msg l [] pver enc Hl)
    as (l' & E & _).
  exists l', (version_payload msg). split; [exact E|].
  set (n := String.length (message.UserAgent msg)) in *.
  assert (Hn : uint64 (Z.of_nat n) = Z.of_nat n)
    by (unfold uint64; apply Z.mod_small; lia).
  assert (Hv : varint (Z.of_nat n) = [Z.of_nat n]).
  { unfold varint.
    assert (Hlt : (Z.of_nat n <? 253) = true) by (apply Z.ltb_lt; lia).
    now rewrite Hlt. }
  assert (Es : varstring (message.UserAgent msg)
               = [Z.of_nat n] ++ bytes_of_string (message.UserAgent msg)).
  { unfold varstring. fold n. now rewrite Hn, Hv. }
  unfold version_payload. rewrite Es.
  set (pre := le_bytes 4 (uint32 (message.ProtocolVersion msg))
                ++ le_bytes 8 (uint64 (message.mvServices msg))
                ++ le_bytes 8 (uint64 (message.mvTimestamp msg))
                ++ addr_record (message.AddrYou msg)
                ++ addr_record (message.AddrMe msg)
                ++ le_bytes 8 (message.Nonce msg)).
  assert (Lp : length pre = 80%nat).
  { subst pre. rewrite !length_app, !le_bytes_length, !addr_record_length.
    reflexivity. }
  assert (Shape :
    le_bytes 4 (uint32 (message.ProtocolVersion msg))
      ++ le_bytes 8 (uint64 (message.mvServices msg))
      ++ le_bytes 8 (uint64 (message.mvTimestamp msg))
      ++ addr_record (message.AddrYou msg)
      ++ addr_record (message.AddrMe msg)
      ++ le_bytes 8 (message.Nonce msg)
      ++ ([Z.of_nat n] ++ bytes_of_string (message.UserAgent msg))
      ++ le_bytes 4 (uint32 (message.LastBlock msg))
    = pre ++ [Z.of_nat n]
        ++ bytes_of_string (message.UserAgent msg)
        ++ le_bytes 4 (uint32 (message.LastBlock msg))).
  { subst pre. rewrite <- !app_assoc. reflexivity. }
  rewrite Shape. split; [|split].
  - rewrite !length_app, Lp, bytes_of_string_length, le_bytes_length.
    fold n. cbn [length]. lia.
  - rewrite (field_skip 80) by exact Lp. now apply field_head.
  - rewrite (app_assoc pre).
    rewrite (field_skip 81)
      by (rewrite length_app, Lp; reflexivity).
    apply field_head, bytes_of_string_length.
Qed.

Lemma MsgVersion_BtcEncode_size_witness :
  exists l' out,
    message.BtcEncode sample_version message.binarySerializer
      ([] : Buffer) 70016 message.WitnessEncoding
    = Some (l', out, None)
    /\ length out = (85 + 15)%nat.
Proof.
  destruct (MsgVersion_BtcEncode_size sample_version
              message.binarySerializer 70016 message.WitnessEncoding)
    as (l' & out & E & L & _).
  - constructor.
  - cbn. lia.
  - exists l', out. split; [exact E | exact L].
Defined.

Lemma first_send_skips (pre s : checker.stream) :
  Forall (fun x => skippable (snd x)) pre ->
  checker.first_send (pre ++ s) = checker.first_send s.
Proof.
  induction 1 as [|[t [m err]] pre Hs _ IH]; [reflexivity|].
  cbn [app checker.first_send].
  destruct Hs as [Hs|Hs]; cbn in Hs.
  - subst err. cbn. exact IH.
  - injection Hs as -> ->. exact IH.
Qed.

(** X10.  The outcome of the wait is decided by the first read that is
    neither an unknown command nor the address-relay announcement: any
    number of such reads in front of a stream changes nothing.  An
    acknowledgement that arrives when the second has passed is lost: the
    call returns the timeout error. *)
Theorem WaitToFinishNegotiation_first_decisive :
  (forall pre s,
     Forall (fun x => skippable (snd x)) pre ->
     checker.WaitToFinishNegotiation (pre ++ s)
     = checker.WaitToFinishNegotiation s)
  /\ (forall t s,
        (checker.window <= t)%nat ->
        checker.WaitToFinishNegotiation
          ((t, (Some checker.MsgVerAck, None)) :: s)
        = Some checker.ErrTimeout)
  /\ (forall t e t' s,
        (t < checker.window)%nat -> e <> ErrUnknownMessage ->
        checker.WaitToFinishNegotiation
          ((t, (None, Some e)) :: (t', (Some checker.MsgVerAck, None)) :: s)
        = Some e).
Proof.
  split; [|split].
  - intros pre s Hp. unfold checker.WaitToFinishNegotiation.
    now rewrite first_send_skips.
  - intros t s Ht. unfold checker.WaitToFinishNegotiation.
    cbn [checker.first_send]. apply Nat.ltb_ge in Ht. now rewrite Ht.
  - intros t e t' s Ht He. unfold checker.WaitToFinishNegotiation.
    cbn [checker.first_send].
    destruct (error_eqb e ErrUnknownMessage) eqn:Ee.
    + apply error_eqb_unknown in Ee. contradiction.
    + apply Nat.ltb_lt in Ht. now rewrite Ht.
Qed.

Lemma WaitToFinishNegotiation_first_decisive_witness :
  checker.WaitToFinishNegotiation
    ([(1%nat, (None, Some ErrUnknownMessage));
      (2%nat, (Some checker.MsgSendAddrV2, None))]
       ++ [(1200%nat, (Some checker.MsgVerAck, None))])
  = Some checker.ErrTimeout.
Proof.
  destruct WaitToFinishNegotiation_first_decisive as (P & L & _).
  rewrite P.
  - apply L. unfold checker.window. lia.
  - constructor; [left; reflexivity|].
    constructor; [right; reflexivity|]. constructor.
Defined.

(** X11.  An address that fails the format check is still tried three
    times: the wrapper prints the format error three times, dials
    nothing, and returns the error that wraps the format error. *)
Theorem Handshake_malformed_address `{Hasher} (l : BinaryFreeList)
  (nets : nat -> Net) (addr : string) (nw pv : Z) :
  ~ well_formed addr ->
  peer.Handshake l nets addr nw pv
  = Some (l,
          inr (errors_New
                 "handshake failed after 3 retries with the error incorrect peer address format"),
          [ev_Println "incorrect peer address format";
           ev_Println "incorrect peer address format";
           ev_Println "incorrect peer address format"]).
Proof.
  intros Hn.
  assert (EM : MatchString peer.pattern addr = false).
  { destruct (MatchString peer.pattern addr) eqn:E; [|reflexivity].
    apply MatchString_well_formed in E. contradiction. }
  assert (A : forall n,
            peer.handshake l n addr nw pv
            = Some (l, peer.Failed
                         (errors_New "incorrect peer address format") [])).
  { intros n. unfold peer.handshake. now rewrite EM. }
  unfold peer.Handshake, peer.HandshakeRetries.
  rewrite (Handshake_loop_fail _ _ _ _ _ _ _ _ _ _ _ _ (A (nets 0%nat))).
  rewrite (Handshake_loop_fail _ _ _ _ _ _ _ _ _ _ _ _ (A (nets 1%nat))).
  rewrite (Handshake_loop_fail _ _ _ _ _ _ _ _ _ _ _ _ (A (nets 2%nat))).
  reflexivity.
Qed.

Lemma Handshake_malformed_address_witness :
  peer.Handshake message.binarySerializer (fun _ => accepting)
    "example.org:8333" MainNet 70016
  = Some (message.binarySerializer,
          inr (errors_New
                 "handshake failed after 3 retries with the error incorrect peer address format"),
          [ev_Println "incorrect peer address format";
           ev_Println "incorrect peer address format";
           ev_Println "incorrect peer address format"]).
Proof.
  apply (Handshake_malformed_address message.binarySerializer
           (fun _ => accepting) "example.org:8333" MainNet 70016).
  intros W. apply MatchString_well_formed in W. discriminate W.
Defined.

(** X12.  Started on a pool in order, the wrapper always returns: no
    attempt indexes a buffer out of range, the error it formats after the
    last attempt is never nil, and the pool is in order afterwards.  It
    returns a connection or an error whose text starts with the count of
    attempts. *)
Theorem Handshake_returns `{Hasher} (l : BinaryFreeList)
  (nets : nat -> Net) (addr : string) (nw pv : Z) :
  pool_ok l ->
  exists l' r t,
    peer.Handshake l nets addr nw pv = Some (l', r, t)
    /\ pool_ok l'
    /\ match r with
       | inl c => ~ In ev_Close (log c)
       | inr e =>
           exists cause,
             e = errors_New
                   ("handshake failed after 3 retries with the error "
                    ++ Error cause)
       end.
Proof.
  intros Hl. unfold peer.Handshake, peer.HandshakeRetries.
  destruct (handshake_run l (nets 0%nat) addr nw pv Hl)
    as (l1 & a1 & E1 & Hl1 & _ & _ & N1).
  destruct a1 as [c1|e1 t1].
  { rewrite (Handshake_loop_ok _ _ _ _ _ _ _ _ _ _ _ E1).
    eexists _, _, _. split; [reflexivity|]. split; [assumption|].
    now apply N1. }
  rewrite (Handshake_loop_fail _ _ _ _ _ _ _ _ _ _ _ _ E1).
  destruct (handshake_run l1 (nets 1%nat) addr nw pv Hl1)
    as (l2 & a2 & E2 & Hl2 & _ & _ & N2).
  destruct a2 as [c2|e2 t2].
  { rewrite (Handshake_loop_ok _ _ _ _ _ _ _ _ _ _ _ E2).
    eexists _, _, _. split; [reflexivity|]. split; [assumption|].
    now apply N2. }
  rewrite (Handshake_loop_fail _ _ _ _ _ _ _ _ _ _ _ _ E2).
  destruct (handshake_run l2 (nets 2%nat) addr nw pv Hl2)
    as (l3 & a3 & E3 & Hl3 & _ & _ & N3).
  destruct a3 as [c3|e3 t3].
  { rewrite (Handshake_loop_ok _ _ _ _ _ _ _ _ _ _ _ E3).
    eexists _, _, _. split; [reflexivity|]. split; [assumption|].
    now apply N3. }
  rewrite (Handshake_loop_fail _ _ _ _ _ _ _ _ _ _ _ _ E3).
  cbn [peer.Handshake_loop obind].
  eexists _, _, _. split; [reflexivity|]. split; [assumption|].
  exists e3. reflexivity.
Qed.

Lemma Handshake_returns_witness :
  exists l' r t,
    peer.Handshake message.binarySerializer (fun _ => accepting)
      "127.0.0.1:18555" SimNet 70016
    = Some (l', r, t)
    /\ pool_ok l'.
Proof.
  destruct (Handshake_returns message.binarySerializer (fun _ => accepting)
              "127.0.0.1:18555" SimNet 70016)
    as (l' & r & t & E & Hl & _).
  - constructor.
  - exists l', r, t. split; [exact E | exact Hl].
Defined.

(** X13.  The pool never holds more buffers than its channel has room
    for: [Return] on a pool within its capacity stays within it, adding
    the buffer at the back when there is room, and [Borrow] takes a
    buffer away or leaves the pool as it is. *)
Theorem pool_within_capacity (l : BinaryFreeList) (buf : slice) :
  (length (queue l) <= chan_cap l)%nat ->
  (length (queue (Return l buf)) <= chan_cap (Return l buf))%nat
  /\ chan_cap (Return l buf) = chan_cap l
  /\ ((length (queue l) < chan_cap l)%nat ->
      queue (Return l buf) = queue l ++ [buf])
  /\ (forall b l',
        Borrow l = Some (b, l') ->
        chan_cap l' = chan_cap l
        /\ (length (queue l') <= length (queue l))%nat).
Proof.
  intros Hc. unfold Return.
  destruct (length (queue l) <? chan_cap l)%nat eqn:E.
  - apply Nat.ltb_lt in E. cbn [queue chan_cap].
    split; [rewrite length_app; cbn; lia|]. split; [reflexivity|].
    split; [reflexivity|].
    intros b l'. unfold Borrow. destruct (queue l) as [|x rest] eqn:Q.
    + destruct (to (make 8) 8); cbn; [|discriminate].
      intros B. injection B as _ <-. rewrite Q. split; [reflexivity | cbn; lia].
    + destruct (to x 8); cbn; [|discriminate].
      intros B. injection B as _ <-. cbn. split; [reflexivity | lia].
  - apply Nat.ltb_ge in E.
    split; [assumption|]. split; [reflexivity|]. split; [lia|].
    intros b l'. unfold Borrow. destruct (queue l) as [|x rest] eqn:Q.
    + destruct (to (make 8) 8); cbn; [|discriminate].
      intros B. injection B as _ <-. rewrite Q. split; [reflexivity | cbn; lia].
    + destruct (to x 8); cbn; [|discriminate].
      intros B. injection B as _ <-. cbn. split; [reflexivity | lia].
Qed.

Lemma pool_within_capacity_witness :
  (length (queue (Return message.binarySerializer (make 8)))
   <= chan_cap (Return message.binarySerializer (make 8)))%nat.
Proof.
  apply (pool_within_capacity message.binarySerializer (make 8)).
  cbn. lia.
Defined.




